(** * multicall-go: the signature parser and the call session of [call/contract.go]

    The development follows the Go source.  Go strings are byte sequences,
    modelled by [string] (a list of 8-bit [ascii]); slices are lists; maps
    are [gmap]s; a [panic] is an explicit outcome that keeps the state the
    receiver had reached when it was raised. *)

From Stdlib Require Import Ascii String List Bool Arith Lia ZArith.
From Stdlib Require Import Strings.Byte.
From stdpp Require Import base option list strings gmap.

Local Open Scope list_scope.

(** ** The functions of Go's [strings] package that the source calls *)

Module strings.

(** [strings.CutPrefix]: what follows [prefix] when [s] starts with it. *)
Fixpoint CutPrefix (s prefix : string) {struct prefix} : option string :=
  match prefix with
  | EmptyString => Some s
  | String p prefix' =>
      match s with
      | EmptyString => None
      | String c s' => if Ascii.eqb c p then CutPrefix s' prefix' else None
      end
  end.

(** [strings.Cut]: the text before and after the first occurrence of [sep],
    found at the leftmost index as [strings.Index] does. *)
Fixpoint Cut (s sep : string) : option (string * string) :=
  match CutPrefix s sep with
  | Some after => Some (EmptyString, after)
  | None =>
      match s with
      | EmptyString => None
      | String c s' =>
          match Cut s' sep with
          | Some (before, after) => Some (String c before, after)
          | None => None
          end
      end
  end.

Definition Contains (s substr : string) : bool :=
  match Cut s substr with Some _ => true | None => false end.

(** The loop of [genSplit]: cut at the first separator, continue in the
    rest.  Go bounds the loop by [Count(s, sep)]; [n] plays that part. *)
Fixpoint genSplit (n : nat) (s sep : string) : list string :=
  match n with
  | O => [s]
  | S n' =>
      match Cut s sep with
      | None => [s]
      | Some (before, after) => before :: genSplit n' after sep
      end
  end.

(** [strings.Split(s, sep)] for a non-empty [sep] (the source only splits
    on ["("], [")"], [","] and [")("]).  There are never more separators
    than bytes. *)
Definition Split (s sep : string) : list string :=
  genSplit (String.length s) s sep.

(** [strings.Replace(s, old, new, n)] for a non-empty [old] and [n >= 0]:
    the first [n] occurrences, left to right, without overlap. *)
Fixpoint Replace (s old new : string) (n : nat) : string :=
  match n with
  | O => s
  | S n' =>
      match Cut s old with
      | None => s
      | Some (before, after) => before +:+ new +:+ Replace after old new n'
      end
  end.

Definition CutSuffix (s suffix : string) : option string :=
  match CutPrefix (String.rev s) (String.rev suffix) with
  | Some r => Some (String.rev r)
  | None => None
  end.

Definition bytes (l : list nat) : string :=
  string_of_list_ascii (map ascii_of_nat l).

(** The runes for which [unicode.IsSpace] holds, in UTF-8: tab, line feed,
    vertical tab, form feed, carriage return and space; U+0085 and U+00A0;
    U+1680, U+2000..U+200A, U+2028, U+2029, U+202F, U+205F and U+3000. *)
Definition spaceRunes : list string :=
  map bytes
    [ [9]; [10]; [11]; [12]; [13]; [32];
      [194; 133]; [194; 160];
      [225; 154; 128];
      [226; 128; 128]; [226; 128; 129]; [226; 128; 130]; [226; 128; 131];
      [226; 128; 132]; [226; 128; 133]; [226; 128; 134]; [226; 128; 135];
      [226; 128; 136]; [226; 128; 137]; [226; 128; 138];
      [226; 128; 168]; [226; 128; 169]; [226; 128; 175];
      [226; 129; 159];
      [227; 128; 128] ].

(** One white-space rune taken off the front, resp. the back, of [s].
    Go decodes a rune there and asks [unicode.IsSpace]; the decoder yields
    a rune of [spaceRunes] exactly when its encoding stands there, since
    over-long and truncated encodings decode to [utf8.RuneError]. *)
Fixpoint firstCut (cut : string -> string -> option string)
    (s : string) (runes : list string) : option string :=
  match runes with
  | [] => None
  | r :: runes' =>
      match cut s r with
      | Some rest => Some rest
      | None => firstCut cut s runes'
      end
  end.

Definition cutSpacePrefix (s : string) : option string :=
  firstCut CutPrefix s spaceRunes.

Definition cutSpaceSuffix (s : string) : option string :=
  firstCut CutSuffix s spaceRunes.

Fixpoint trimLoop (cut : string -> option string) (n : nat) (s : string) : string :=
  match n with
  | O => s
  | S n' => match cut s with Some rest => trimLoop cut n' rest | None => s end
  end.

Definition TrimLeftSpace (s : string) : string :=
  trimLoop cutSpacePrefix (String.length s) s.

Definition TrimRightSpace (s : string) : string :=
  trimLoop cutSpaceSuffix (String.length s) s.

(** [strings.TrimSpace]: leading and trailing white space removed. *)
Definition TrimSpace (s : string) : string :=
  TrimRightSpace (TrimLeftSpace s).

(** The ASCII branch of [strings.ToLower]. *)
Definition lowerByte (c : ascii) : ascii :=
  let n := nat_of_ascii c in
  if (65 <=? n) && (n <=? 90) then ascii_of_nat (n + 32) else c.

Fixpoint lowerASCII (s : string) : string :=
  match s with
  | EmptyString => EmptyString
  | String c s' => String (lowerByte c) (lowerASCII s')
  end.

Fixpoint isASCII (s : string) : bool :=
  match s with
  | EmptyString => true
  | String c s' => (nat_of_ascii c <? 128) && isASCII s'
  end.

(** [strings.Join], used to write signatures down. *)
Fixpoint Join (elems : list string) (sep : string) : string :=
  match elems with
  | [] => EmptyString
  | [e] => e
  | e :: elems' => e +:+ sep +:+ Join elems' sep
  end.

End strings.

(** ** Panics *)

(** What a [panic] carries in this file of the source: a message
    ([panic("...")]) or the run-time error of an index out of range. *)
Inductive runtimePanic : Type :=
  | PanicString (msg : string)
  | IndexOutOfRange (index len : nat).

Inductive Result (A : Type) : Type :=
  | Ok (a : A)
  | Panic (p : runtimePanic).

Arguments Ok {A} a.
Arguments Panic {A} p.

Global Instance Result_bind : MBind Result :=
  fun A B (k : A -> Result B) (r : Result A) =>
    match r with
    | Ok a => k a
    | Panic p => Panic p
    end.

(** [l[i]] on a slice. *)
Definition index {A : Type} (l : list A) (i : nat) : Result A :=
  match l !! i with
  | Some a => Ok a
  | None => Panic (IndexOutOfRange i (length l))
  end.

(** ** The data model *)

Module Argument.
Record t : Type := Build
  { Name : string; Type_ : string; InternalType : string }.
End Argument.

Module Method.
Record t : Type := Build
  { Name : string;
    Inputs : list Argument.t;
    Outputs : list Argument.t;
    Type_ : string;
    StateMutability : string }.
End Method.

(** ** The signature parser *)

Definition parseParamsPath (paramsPath : string) : list string :=
  strings.Split paramsPath ",".

(** [Argument{Name: "", Type: TrimSpace(p), InternalType: TrimSpace(p)}] *)
Definition argumentOf (param : string) : Argument.t :=
  {| Argument.Name := "";
     Argument.Type_ := strings.TrimSpace param;
     Argument.InternalType := strings.TrimSpace param |}.

(** The loop over [params], appending an input for every parameter that is
    not the empty string. *)
Definition appendInputs (inputs : list Argument.t) (params : list string)
    : list Argument.t :=
  if 0 <? length params then
    fold_left
      (fun acc inParam =>
         if String.eqb inParam "" then acc else acc ++ [argumentOf inParam])
      params inputs
  else inputs.

(** The loop over [outputs], appending every one of them. *)
Definition appendOutputs (outs : list Argument.t) (outputs : list string)
    : list Argument.t :=
  fold_left (fun acc outParam => acc ++ [argumentOf outParam]) outputs outs.

Definition parseNewMethod (signature : string) : Result Method.t :=
  let methodPaths := strings.Split signature "(" in
  if length methodPaths <=? 1 then
    Panic (PanicString "Function is invalid format!")
  else
    methodPaths0 ← index methodPaths 0;
    let methodName := strings.Replace methodPaths0 "function" "" 1 in
    let methodName := strings.TrimSpace methodName in
    let isMultipleReturn := strings.Contains signature ")(" in
    if isMultipleReturn then
      let multipleReturnPaths := strings.Split signature ")(" in
      multipleReturnPath ← index multipleReturnPaths 1;
      multipleReturnPaths0 ← index multipleReturnPaths 0;
      let paramsPaths := strings.Split multipleReturnPaths0 "(" in
      paramsPaths1 ← index paramsPaths 1;
      let params := parseParamsPath paramsPaths1 in
      let inputs := appendInputs [] params in
      let outputPath := strings.Replace multipleReturnPath ")" "" 1 in
      let outputs := strings.Split outputPath "," in
      Ok {| Method.Name := methodName;
            Method.Inputs := inputs;
            Method.Outputs := appendOutputs [] outputs;
            Method.Type_ := "function";
            Method.StateMutability := "view" |}
    else
      let singleReturnPaths := strings.Split signature ")" in
      singleReturnPaths0 ← index singleReturnPaths 0;
      let paramsPaths := strings.Split singleReturnPaths0 "(" in
      paramsPaths1 ← index paramsPaths 1;
      let params := parseParamsPath paramsPaths1 in
      let inputs := appendInputs [] params in
      singleReturnPaths1 ← index singleReturnPaths 1;
      let returnType := strings.TrimSpace singleReturnPaths1 in
      Ok {| Method.Name := methodName;
            Method.Inputs := inputs;
            Method.Outputs :=
              [ {| Argument.Name := "";
                   Argument.Type_ := returnType;
                   Argument.InternalType := returnType |} ];
            Method.Type_ := "function";
            Method.StateMutability := "view" |}.


(** ** The collaborators outside the repository *)

Module core.

(** [core.Call], with the fields the session fills in. *)
Record Call : Type := Build_Call
  { Method : string;
    Target : list byte;
    Name : string;
    CallData : list byte }.

(** Modelled from the spec: [core.CallResponse] is declared outside the
    repository's source file; the aggregator returns raw bytes per label,
    which the session reads from the field [ReturnData]. *)
Record CallResponse : Type := Build_CallResponse
  { ReturnData : list byte }.

End core.

(** go-ethereum's [abi], [common] and [ethclient], [encoding/json], the
    aggregator of the [core] package and the Unicode case tables.  A Go
    function returning [(x, err)] is a function into a pair whose second
    component is [None] for a [nil] error; a pointer is an [option]. *)
Class External : Type := Build_External
  { ABI : Type;
    Client : Type;
    MultiCaller : Type;
    value : Type;
    error : Type;
    (** [abi.ABI{}] *)
    zeroABI : ABI;
    (** [common.HexToAddress] *)
    HexToAddress : string -> list byte;
    (** [core.NewMultiCaller] *)
    NewMultiCaller : option Client -> list byte -> option MultiCaller * option error;
    (** [abi.ABI.Pack] and [abi.ABI.Unpack] *)
    Pack : ABI -> string -> list value -> list byte * option error;
    Unpack : ABI -> string -> list byte -> list value * option error;
    (** [core.MultiCaller.Execute] *)
    Execute : option MultiCaller -> list core.Call -> option Z ->
              option Z * gmap string core.CallResponse * option error;
    (** [json.Marshal] on a slice of methods, and [abi.JSON] on a reader of
        the marshalled text *)
    jsonMarshal : list Method.t -> list byte * option error;
    abiJSON : list byte -> ABI * option error;
    (** [strings.Map(unicode.ToLower, _)], the branch [strings.ToLower] takes
        on a string with a byte outside ASCII *)
    mapToLower : string -> string }.

(** ** The session *)

Section Session.

Context `{External}.

(** [panic(v)]: [v] is a string, a run-time error or an [error]. *)
Inductive panicValue : Type :=
  | Runtime (p : runtimePanic)
  | PanicError (e : error).

Record contract : Type := Build_contract
  { ethClient : option Client;
    contractAbi : ABI;
    rawMethods : gmap string string;
    methods : list Method.t;
    calls : list core.Call;
    multiCaller : option MultiCaller }.

(** How a method on [*contract] ends: it returns, or it panics; either way
    the receiver is left in a state. *)
Inductive Outcome (A : Type) : Type :=
  | Returns (a : A) (st : contract)
  | Panics (p : panicValue) (st : contract).

Arguments Returns {A} a st.
Arguments Panics {A} p st.

Definition stateOf {A : Type} (o : Outcome A) : contract :=
  match o with
  | Returns _ st => st
  | Panics _ st => st
  end.

Definition ToLower (s : string) : string :=
  if strings.isASCII s then strings.lowerASCII s else mapToLower s.

Definition NewContractBuilder : contract :=
  {| ethClient := None;
     contractAbi := zeroABI;
     rawMethods := ∅;
     methods := [];
     calls := [];
     multiCaller := None |}.

Definition WithClient (a : contract) (client : option Client) : contract :=
  {| ethClient := client;
     contractAbi := contractAbi a;
     rawMethods := rawMethods a;
     methods := methods a;
     calls := calls a;
     multiCaller := multiCaller a |}.

Definition Build (a : contract) : contract := a.

Definition AtAddress (a : contract) (address : string) : Outcome unit :=
  let '(caller, err) := NewMultiCaller (ethClient a) (HexToAddress address) in
  match err with
  | Some e => Panics (PanicError e) a
  | None =>
      Returns tt
        {| ethClient := ethClient a;
           contractAbi := contractAbi a;
           rawMethods := rawMethods a;
           methods := methods a;
           calls := calls a;
           multiCaller := caller |}
  end.

Definition setCalls (a : contract) (cs : list core.Call) : contract :=
  {| ethClient := ethClient a;
     contractAbi := contractAbi a;
     rawMethods := rawMethods a;
     methods := methods a;
     calls := cs;
     multiCaller := multiCaller a |}.

Definition AddCall (a : contract) (callName contractAddress method : string)
    (args : list value) : Outcome unit :=
  let '(callData, err) := Pack (contractAbi a) method args in
  match err with
  | Some e => Panics (PanicError e) a
  | None =>
      Returns tt
        (setCalls a
           (calls a ++
              [ {| core.Method := method;
                   core.Target := HexToAddress contractAddress;
                   core.Name := callName;
                   core.CallData := callData |} ]))
  end.

Definition repackAbi (ms : list Method.t) : ABI * option error :=
  let '(abiString, err) := jsonMarshal ms in
  match err with
  | Some e => (zeroABI, Some e)
  | None => abiJSON abiString
  end.

Definition setRawMethods (a : contract) (raw : gmap string string) : contract :=
  {| ethClient := ethClient a;
     contractAbi := contractAbi a;
     rawMethods := raw;
     methods := methods a;
     calls := calls a;
     multiCaller := multiCaller a |}.

Definition setMethods (a : contract) (ms : list Method.t) : contract :=
  {| ethClient := ethClient a;
     contractAbi := contractAbi a;
     rawMethods := rawMethods a;
     methods := ms;
     calls := calls a;
     multiCaller := multiCaller a |}.

Definition setContractAbi (a : contract) (newAbi : ABI) : contract :=
  {| ethClient := ethClient a;
     contractAbi := newAbi;
     rawMethods := rawMethods a;
     methods := methods a;
     calls := calls a;
     multiCaller := multiCaller a |}.

Definition duplicate (existCall : string) : panicValue :=
  Runtime (PanicString ("Caller named " +:+ existCall +:+ " is exist on ABI")).

Definition AddMethod (a : contract) (signature : string) : Outcome unit :=
  match rawMethods a !! ToLower signature with
  | Some existCall => Panics (duplicate existCall) a
  | None =>
      let a := setRawMethods a (<[ToLower signature := signature]> (rawMethods a)) in
      match parseNewMethod signature with
      | Panic p => Panics (Runtime p) a
      | Ok newMethod =>
          let a := setMethods a (methods a ++ [newMethod]) in
          let '(newAbi, err) := repackAbi (methods a) in
          match err with
          | Some e => Panics (PanicError e) a
          | None =>
              let a := setContractAbi a newAbi in
              match err with
              | Some e => Panics (PanicError e) a
              | None => Returns tt a
              end
          end
      end
  end.

Definition Abi (a : contract) : ABI := contractAbi a.

Definition ClearCall (a : contract) : contract := setCalls a [].

(** [results[name].ReturnData]; a label the map lacks reads the zero
    [CallResponse], whose [ReturnData] is [nil]. *)
Definition returnDataOf (results : gmap string core.CallResponse)
    (name : string) : list byte :=
  match results !! name with
  | Some r => core.ReturnData r
  | None => []
  end.

(** The loop of [Call]: [res[call.Name], _ = Unpack(call.Method, ...)]. *)
Definition unpackInto (abi : ABI) (results : gmap string core.CallResponse)
    (res : gmap string (list value)) (call : core.Call)
    : gmap string (list value) :=
  <[core.Name call :=
      (Unpack abi (core.Method call) (returnDataOf results (core.Name call))).1]> res.

Definition Call (a : contract) (blockNumber : option Z)
    : Outcome (option Z * gmap string (list value) * option error) :=
  let res : gmap string (list value) := ∅ in
  let '(blockNumber, results, err) := Execute (multiCaller a) (calls a) blockNumber in
  let res := fold_left (unpackInto (contractAbi a) results) (calls a) res in
  let a := ClearCall a in
  Returns (blockNumber, res, err) a.

End Session.

Arguments Returns {_ A} a st.
Arguments Panics {_ A} p st.

(** ** Vocabulary of the statements *)

(** [lacks c s]: the byte [c] does not occur in [s]. *)
Fixpoint lacks (c : ascii) (s : string) : bool :=
  match s with
  | EmptyString => true
  | String d s' => negb (Ascii.eqb d c) && lacks c s'
  end.

(** [strings.Split(s, sep)[0]]: the text before the first [sep]. *)
Definition before (s sep : string) : string :=
  match strings.Cut s sep with
  | Some (b, _) => b
  | None => s
  end.

(** No parenthesis occurs in [s]. *)
Definition plain (s : string) : bool := lacks "(" s && lacks ")" s.

(** A type token of a parameter list: no parenthesis and no comma. *)
Definition typeToken (t : string) : bool := plain t && lacks "," t.


(** A method name: no parenthesis, no occurrence of the word [function],
    nothing for [TrimSpace] to remove. *)
Definition methodName (name : string) : bool :=
  plain name && negb (strings.Contains name "function")
  && String.eqb (strings.TrimSpace name) name.

Definition invalidFormat : runtimePanic :=
  PanicString "Function is invalid format!".

Definition typed (ty : string) : Argument.t :=
  {| Argument.Name := ""; Argument.Type_ := ty; Argument.InternalType := ty |}.

Definition methodOf (name : string) (inputs outputs : list Argument.t) : Method.t :=
  {| Method.Name := name;
     Method.Inputs := inputs;
     Method.Outputs := outputs;
     Method.Type_ := "function";
     Method.StateMutability := "view" |}.

Definition viewFunction (name : string) (ins outs : list string) : Method.t :=
  methodOf name (typed <$> ins) (typed <$> outs).

(** The method name the parser computes from the text before the first ["("]. *)
Definition nameOf (signature : string) : string :=
  strings.TrimSpace (strings.Replace (before signature "(") "function" "" 1).

(** The signatures on which no index runs out of range: a ["("] stands
    before the first [")("], or else before the first [")"]. *)
Definition hasParameterList (signature : string) : bool :=
  match strings.Cut signature ")(" with
  | Some (ins, _) => strings.Contains ins "("
  | None =>
      match strings.Cut signature ")" with
      | Some (ins, _) => strings.Contains ins "("
      | None => false
      end
  end.

(** ** Vocabulary of the statements about the session *)

Section SessionVocabulary.

Context `{External}.

(** What [Call] receives from the aggregator. *)
Definition executed (a : contract) (blockNumber : option Z)
    : option Z * gmap string core.CallResponse * option error :=
  Execute (multiCaller a) (calls a) blockNumber.

(** What [Call] stores under the label of [call]. *)
Definition unpacked (a : contract) (results : gmap string core.CallResponse)
    (call : core.Call) : list value * option error :=
  Unpack (contractAbi a) (core.Method call)
    (returnDataOf results (core.Name call)).

(** The entry [AddCall] appends. *)
Definition entry (a : contract) (callName contractAddress method : string)
    (args : list value) : core.Call :=
  {| core.Method := method;
     core.Target := HexToAddress contractAddress;
     core.Name := callName;
     core.CallData := (Pack (contractAbi a) method args).1 |}.

(** One use of the session, however it ends. *)
Inductive step : contract -> contract -> Prop :=
  | step_WithClient a client : step a (WithClient a client)
  | step_AtAddress a address : step a (stateOf (AtAddress a address))
  | step_AddMethod a signature : step a (stateOf (AddMethod a signature))
  | step_AddCall a callName contractAddress method args :
      step a (stateOf (AddCall a callName contractAddress method args))
  | step_Call a blockNumber : step a (stateOf (Call a blockNumber))
  | step_ClearCall a : step a (ClearCall a).

(** [registered s a]: some [AddMethod(s)] returned on the way to [a]. *)
Inductive registered (s : string) : contract -> Prop :=
  | registered_now a a' : AddMethod a s = Returns tt a' -> registered s a'
  | registered_before a a' : registered s a -> step a a' -> registered s a'.

End SessionVocabulary.

(** Equal up to the case of the ASCII letters. *)
Definition equalFold (s t : string) : Prop :=
  strings.lowerASCII s = strings.lowerASCII t.

(** A stand-in for the collaborators, to run the session on: the compiled
    description is the marshalled text, of 20 bytes at most; packing takes no
    arguments; the aggregator echoes the call data at a given block and
    fails without one; unpacking fails on empty data. *)
Definition demo : External :=
  {| ABI := list byte;
     Client := unit;
     MultiCaller := unit;
     value := list byte;
     error := string;
     zeroABI := [];
     HexToAddress := list_byte_of_string;
     NewMultiCaller := fun _ _ => (Some tt, None);
     Pack := fun _ method args =>
       match args with
       | [] => (list_byte_of_string method, None)
       | _ :: _ => ([], Some "invalid arguments")
       end;
     Unpack := fun _ _ data =>
       match data with
       | [] => ([], Some "empty data")
       | _ :: _ => ([data], None)
       end;
     Execute := fun _ cs blockNumber =>
       match blockNumber with
       | Some n =>
           (Some n,
            list_to_map
              ((fun c => (core.Name c,
                          {| core.ReturnData := core.CallData c |})) <$> cs),
            None)
       | None => (None, ∅, Some "no block")
       end;
     jsonMarshal := fun ms =>
       (list_byte_of_string (strings.Join (Method.Name <$> ms) ";"), None);
     abiJSON := fun text =>
       if 20 <? length text then ([], Some "description too long")
       else (text, None);
     mapToLower := strings.lowerASCII |}.

(** A session with one method, and the same with one pending call. *)
Definition demoSession : @contract demo :=
  stateOf (AddMethod NewContractBuilder "function totalSupply()(uint256)").

Definition demoBatch : @contract demo :=
  stateOf (AddCall demoSession "ts" "0xAAA" "totalSupply" []).

(** ** Vocabulary of the further statements *)

(** The bytes of Go's [asciiSpace] table. *)
Definition asciiSpace (c : ascii) : bool :=
  existsb (Ascii.eqb c) ["009"; "010"; "011"; "012"; "013"; " "]%char.

(** No white-space rune stands at either end of [s]. *)
Definition trimmed (s : string) : Prop :=
  strings.cutSpacePrefix s = None /\ strings.cutSpaceSuffix s = None.

(** An argument as the parser builds them: no name, and the internal type
    equal to the type. *)
Definition anonymous (arg : Argument.t) : Prop :=
  Argument.Name arg = "" /\ Argument.InternalType arg = Argument.Type_ arg.

Section FurtherVocabulary.

Context `{External}.

(** The sessions a caller can get to from [NewContractBuilder]. *)
Inductive reachable : contract -> Prop :=
  | reachable_new : reachable NewContractBuilder
  | reachable_step a a' : reachable a -> step a a' -> reachable a'.

(** [a.AddCall(...).AddCall(...)...]: the calls are added in turn, up to the
    first one that panics. *)
Fixpoint AddCalls (a : contract)
    (requests : list (string * string * string * list value)) : Outcome unit :=
  match requests with
  | [] => Returns tt a
  | (callName, contractAddress, method, args) :: requests' =>
      match AddCall a callName contractAddress method args with
      | Returns _ a' => AddCalls a' requests'
      | Panics p a' => Panics p a'
      end
  end.

Definition entryOf (a : contract)
    (request : string * string * string * list value) : core.Call :=
  entry a request.1.1.1 request.1.1.2 request.1.2 request.2.

End FurtherVocabulary.

(** * Facts *)

(** ** The string functions *)

Example Split_examples :
  strings.Split "foo(a,b)(c)" "(" = ["foo"; "a,b)"; "c)"] /\
  strings.Split "" "(" = [""] /\
  strings.Split ")()(" ")(" = [""; ""; ""] /\
  strings.Split "a,,b," "," = ["a"; ""; "b"; ""] /\
  strings.Replace "a)b)" ")" "" 1 = "ab)" /\
  strings.TrimSpace "  uint256 " = "uint256" /\
  strings.TrimSpace " " = "" /\
  strings.lowerASCII "Foo(Uint256)" = "foo(uint256)".
Proof. vm_compute. repeat split. Qed.

Section StringFacts.

Lemma app_cons c s t : String c s +:+ t = String c (s +:+ t).
Proof. reflexivity. Qed.

Lemma app_empty_l s : "" +:+ s = s.
Proof. reflexivity. Qed.

Lemma app_empty_r s : s +:+ "" = s.
Proof. induction s as [|c s IH]; [reflexivity|]. by rewrite app_cons, IH. Qed.

Lemma app_assoc s t u : (s +:+ t) +:+ u = s +:+ t +:+ u.
Proof. induction s as [|c s IH]; [reflexivity|]. by rewrite !app_cons, IH. Qed.

Lemma length_app s t :
  String.length (s +:+ t) = String.length s + String.length t.
Proof. induction s as [|c s IH]; [reflexivity|]. rewrite app_cons. simpl. lia. Qed.

Lemma lacks_app c s t : lacks c (s +:+ t) = lacks c s && lacks c t.
Proof.
  induction s as [|d s IH]; [reflexivity|].
  rewrite app_cons. simpl. rewrite IH. by rewrite andb_assoc.
Qed.

Lemma CutPrefix_app p s : strings.CutPrefix (p +:+ s) p = Some s.
Proof.
  induction p as [|c p IH]; [reflexivity|].
  rewrite app_cons. simpl. by rewrite Ascii.eqb_refl.
Qed.

Lemma CutPrefix_Some s p r : strings.CutPrefix s p = Some r -> s = p +:+ r.
Proof.
  revert s. induction p as [|c p IH]; intros s H; simpl in H.
  - by inversion H.
  - destruct s as [|d s]; [discriminate|].
    destruct (Ascii.eqb d c) eqn:E; [|discriminate].
    apply Ascii.eqb_eq in E. subst d.
    rewrite app_cons. f_equal. by apply IH.
Qed.

Lemma CutPrefix_lacks c s p :
  lacks c p = false -> lacks c s = true -> strings.CutPrefix s p = None.
Proof.
  intros Hp Hs. destruct (strings.CutPrefix s p) as [r|] eqn:E; [|done].
  apply CutPrefix_Some in E. subst s.
  rewrite lacks_app, Hp in Hs. discriminate.
Qed.

Lemma Cut_unfold s sep :
  strings.Cut s sep =
    match strings.CutPrefix s sep with
    | Some after => Some ("", after)
    | None =>
        match s with
        | EmptyString => None
        | String c s' =>
            match strings.Cut s' sep with
            | Some (b, a) => Some (String c b, a)
            | None => None
            end
        end
    end.
Proof. by destruct s. Qed.

Lemma Cut_Some s sep b a :
  strings.Cut s sep = Some (b, a) -> s = b +:+ sep +:+ a.
Proof.
  revert b. induction s as [|c s IH]; intros b H; rewrite Cut_unfold in H.
  - destruct (strings.CutPrefix "" sep) as [r|] eqn:E; [|discriminate].
    inversion H; subst. by apply CutPrefix_Some in E.
  - destruct (strings.CutPrefix (String c s) sep) as [r|] eqn:E.
    + inversion H; subst. by apply CutPrefix_Some in E.
    + destruct (strings.Cut s sep) as [[b' a']|] eqn:E'; [|discriminate].
      inversion H; subst. rewrite app_cons. f_equal. by apply IH.
Qed.

(** The first separator is found right after a text that lacks the
    separator's first byte. *)
Lemma Cut_app c sep' a b :
  lacks c a = true ->
  strings.Cut (a +:+ String c sep' +:+ b) (String c sep') = Some (a, b).
Proof.
  intros Ha. induction a as [|d a IH].
  - rewrite app_empty_l, Cut_unfold.
    by rewrite CutPrefix_app.
  - simpl in Ha. apply andb_prop in Ha as [Hd Ha].
    rewrite app_cons, Cut_unfold. simpl.
    destruct (Ascii.eqb d c); [discriminate|].
    by rewrite (IH Ha).
Qed.

(** No separator is found in a text that lacks one of its bytes. *)
Lemma Cut_lacks c s sep :
  lacks c sep = false -> lacks c s = true -> strings.Cut s sep = None.
Proof.
  intros Hsep. induction s as [|d s IH]; intros Hs; rewrite Cut_unfold.
  - by rewrite (CutPrefix_lacks c).
  - rewrite (CutPrefix_lacks c) by done.
    simpl in Hs. apply andb_prop in Hs as [_ Hs]. by rewrite (IH Hs).
Qed.

Lemma Cut_length s sep b a :
  strings.Cut s sep = Some (b, a) ->
  String.length s = String.length b + String.length sep + String.length a.
Proof. intros H. apply Cut_Some in H. subst s. rewrite !length_app. lia. Qed.

(** Fuel beyond the length of the text changes nothing. *)
Lemma genSplit_fuel sep n s :
  sep <> "" -> String.length s <= n ->
  strings.genSplit n s sep = strings.genSplit (String.length s) s sep.
Proof.
  intros Hsep. revert s.
  induction n as [n IH] using lt_wf_ind. intros s Hn.
  destruct n as [|n].
  - by replace (String.length s) with 0 by lia.
  - simpl. destruct (strings.Cut s sep) as [[b a]|] eqn:E.
    + pose proof (Cut_length _ _ _ _ E) as HL.
      assert (0 < String.length sep) by (destruct sep; [done|simpl; lia]).
      destruct (String.length s) as [|m] eqn:Em; [lia|].
      simpl. rewrite E. f_equal.
      rewrite (IH n) by lia. symmetry. apply IH; lia.
    + destruct (String.length s); simpl; by rewrite ?E.
Qed.

Lemma Split_unfold s sep :
  sep <> "" ->
  strings.Split s sep =
    match strings.Cut s sep with
    | None => [s]
    | Some (b, a) => b :: strings.Split a sep
    end.
Proof.
  intros Hsep. unfold strings.Split.
  rewrite <- (genSplit_fuel sep (S (String.length s))) by (done || lia).
  simpl. destruct (strings.Cut s sep) as [[b a]|] eqn:E; [|done].
  f_equal. apply genSplit_fuel; [done|].
  apply Cut_length in E. lia.
Qed.

Lemma Split_0 s sep : sep <> "" -> strings.Split s sep !! 0 = Some (before s sep).
Proof.
  intros Hsep. rewrite Split_unfold by done. unfold before.
  by destruct (strings.Cut s sep) as [[b a]|].
Qed.

Lemma Split_1 s sep :
  sep <> "" ->
  strings.Split s sep !! 1 =
    match strings.Cut s sep with
    | Some (_, a) => Some (before a sep)
    | None => None
    end.
Proof.
  intros Hsep. rewrite Split_unfold by done.
  destruct (strings.Cut s sep) as [[b a]|]; [|done].
  simpl. by apply Split_0.
Qed.

Lemma Split_length s sep :
  sep <> "" ->
  (length (strings.Split s sep) <=? 1) = negb (strings.Contains s sep).
Proof.
  intros Hsep. rewrite Split_unfold by done. unfold strings.Contains.
  destruct (strings.Cut s sep) as [[b a]|]; [|done].
  rewrite (Split_unfold a) by done.
  by destruct (strings.Cut a sep) as [[b' a']|].
Qed.

(** The loops of [TrimSpace] stop because no white space is left, not
    because they run out of steps. *)
Lemma length_rev_app s t :
  String.length (String.rev_app s t) = String.length s + String.length t.
Proof.
  revert t. induction s as [|c s IH]; intros t; [done|].
  simpl. rewrite IH. simpl. lia.
Qed.

Lemma length_rev s : String.length (String.rev s) = String.length s.
Proof. unfold String.rev. rewrite length_rev_app. simpl. lia. Qed.

Lemma CutPrefix_length s p r :
  strings.CutPrefix s p = Some r ->
  String.length s = String.length p + String.length r.
Proof. intros ->%CutPrefix_Some. apply length_app. Qed.

Lemma CutSuffix_length s p r :
  strings.CutSuffix s p = Some r ->
  String.length s = String.length p + String.length r.
Proof.
  unfold strings.CutSuffix.
  destruct (strings.CutPrefix _ _) as [r'|] eqn:E; [|done].
  intros [= <-]. apply CutPrefix_length in E.
  rewrite !length_rev in *. done.
Qed.

Lemma firstCut_shorter cut s r :
  (forall s p r, cut s p = Some r ->
     String.length s = String.length p + String.length r) ->
  strings.firstCut cut s strings.spaceRunes = Some r ->
  String.length r < String.length s.
Proof.
  intros Hcut.
  assert (Hrunes : Forall (λ p, 0 < String.length p) strings.spaceRunes)
    by (repeat constructor).
  induction Hrunes as [|p runes Hp _ IH]; [done|].
  simpl. destruct (cut s p) as [r'|] eqn:E; [|done].
  intros [= <-]. apply Hcut in E. lia.
Qed.

Lemma trimLoop_done cut n s :
  (forall s r, cut s = Some r -> String.length r < String.length s) ->
  String.length s <= n -> cut (strings.trimLoop cut n s) = None.
Proof.
  intros Hcut. revert s. induction n as [|n IH]; intros s Hn; simpl.
  - destruct (cut s) as [r|] eqn:E; [|done]. apply Hcut in E. lia.
  - destruct (cut s) as [r|] eqn:E; [|done].
    apply IH. apply Hcut in E. lia.
Qed.

Lemma TrimLeftSpace_done s :
  strings.cutSpacePrefix (strings.TrimLeftSpace s) = None.
Proof.
  apply trimLoop_done; [|done].
  intros s' r. apply firstCut_shorter, CutPrefix_length.
Qed.

Lemma TrimRightSpace_done s :
  strings.cutSpaceSuffix (strings.TrimRightSpace s) = None.
Proof.
  apply trimLoop_done; [|done].
  intros s' r. apply firstCut_shorter, CutSuffix_length.
Qed.

(** One leading space is trimmed with the rest. *)
Lemma TrimSpace_space s :
  strings.TrimSpace (String " " s) = strings.TrimSpace s.
Proof. reflexivity. Qed.

End StringFacts.

(** ** How [parseNewMethod] cuts a signature *)

Example parse_examples :
  parseNewMethod "function balanceOf(address)(uint256)"
    = Ok (viewFunction "balanceOf" ["address"] ["uint256"]) /\
  parseNewMethod "foo()(uint256)" = Ok (viewFunction "foo" [] ["uint256"]) /\
  parseNewMethod "foo()uint256" = Ok (viewFunction "foo" [] ["uint256"]) /\
  parseNewMethod "foo(uint256)(uint256,)"
    = Ok (viewFunction "foo" ["uint256"] ["uint256"; ""]) /\
  parseNewMethod "foo( )(uint256)" = Ok (viewFunction "foo" [""] ["uint256"]) /\
  parseNewMethod "myfunction()(uint256)" = Ok (viewFunction "my" [] ["uint256"]) /\
  parseNewMethod "foo" = Panic (PanicString "Function is invalid format!") /\
  parseNewMethod "foo(" = Panic (IndexOutOfRange 1 1) /\
  parseNewMethod ")(" = Panic (IndexOutOfRange 1 1) /\
  parseNewMethod "a)b(" = Panic (IndexOutOfRange 1 1).
Proof. vm_compute. repeat split. Qed.

Section ParserFacts.

Lemma bind_Ok {A B} (a : A) (k : A -> Result B) : (Ok a ≫= k) = k a.
Proof. reflexivity. Qed.

Lemma index_Split_0 s sep :
  sep <> "" -> index (strings.Split s sep) 0 = Ok (before s sep).
Proof. intros H. unfold index. by rewrite Split_0. Qed.

Lemma index_Split_1 s sep :
  sep <> "" ->
  index (strings.Split s sep) 1 =
    match strings.Cut s sep with
    | Some (_, a) => Ok (before a sep)
    | None => Panic (IndexOutOfRange 1 1)
    end.
Proof.
  intros H. unfold index. rewrite Split_1 by done.
  destruct (strings.Cut s sep) as [[b a]|] eqn:E; [done|].
  by rewrite Split_unfold, E.
Qed.

Lemma appendInputs_filter params :
  appendInputs [] params
  = typed ∘ strings.TrimSpace <$> filter (λ p, p ≠ "") params.
Proof.
  unfold appendInputs.
  assert (G : forall acc,
    fold_left (fun acc inParam =>
                 if String.eqb inParam "" then acc else acc ++ [argumentOf inParam])
              params acc
    = acc ++ (typed ∘ strings.TrimSpace <$> filter (λ p, p ≠ "") params)).
  { induction params as [|p params IH]; intros acc; simpl.
    - by rewrite app_nil_r.
    - rewrite IH. destruct (String.eqb_spec p "") as [->|Hp].
      + by rewrite filter_cons_False by (intros H; by apply H).
      + rewrite filter_cons_True by done.
        by rewrite <- List.app_assoc. }
  destruct params as [|p params]; [done|].
  replace (0 <? length (p :: params)) with true by done.
  apply G.
Qed.

Lemma appendOutputs_map outputs :
  appendOutputs [] outputs = typed ∘ strings.TrimSpace <$> outputs.
Proof.
  unfold appendOutputs.
  assert (G : forall acc,
    fold_left (fun acc outParam => acc ++ [argumentOf outParam]) outputs acc
    = acc ++ (typed ∘ strings.TrimSpace <$> outputs)).
  { induction outputs as [|p outputs IH]; intros acc; simpl.
    - by rewrite app_nil_r.
    - rewrite IH. by rewrite <- List.app_assoc. }
  apply G.
Qed.

(** [parseNewMethod], with every [Split] and index written as a cut. *)
Lemma parseNewMethod_cut signature :
  parseNewMethod signature =
    if strings.Contains signature "(" then
      match strings.Cut signature ")(" with
      | Some (ins, outs) =>
          match strings.Cut ins "(" with
          | Some (_, params) =>
              Ok (methodOf (nameOf signature)
                    (appendInputs [] (parseParamsPath (before params "(")))
                    (appendOutputs []
                       (strings.Split
                          (strings.Replace (before outs ")(") ")" "" 1) ",")))
          | None => Panic (IndexOutOfRange 1 1)
          end
      | None =>
          match strings.Cut (before signature ")") "(" with
          | Some (_, params) =>
              match strings.Cut signature ")" with
              | Some (_, ret) =>
                  Ok (methodOf (nameOf signature)
                        (appendInputs [] (parseParamsPath (before params "(")))
                        [typed (strings.TrimSpace (before ret ")"))])
              | None => Panic (IndexOutOfRange 1 1)
              end
          | None => Panic (IndexOutOfRange 1 1)
          end
      end
    else Panic invalidFormat.
Proof.
  unfold parseNewMethod.
  rewrite Split_length by done.
  destruct (strings.Contains signature "(") eqn:Hopen; cbn [negb]; [|done].
  rewrite (index_Split_0 signature "("), bind_Ok by done.
  fold (nameOf signature).
  unfold strings.Contains.
  destruct (strings.Cut signature ")(") as [[ins outs]|] eqn:Hmulti.
  - rewrite (index_Split_1 signature ")("), Hmulti, bind_Ok by done.
    rewrite (index_Split_0 signature ")("), bind_Ok by done.
    replace (before signature ")(") with ins by (unfold before; by rewrite Hmulti).
    rewrite (index_Split_1 ins "(") by done.
    by destruct (strings.Cut ins "(") as [[? params]|].
  - rewrite (index_Split_0 signature ")"), bind_Ok by done.
    rewrite (index_Split_1 (before signature ")") "(") by done.
    destruct (strings.Cut (before signature ")") "(") as [[? params]|]; [|done].
    rewrite bind_Ok, (index_Split_1 signature ")") by done.
    by destruct (strings.Cut signature ")") as [[? ret]|].
Qed.

End ParserFacts.

(** ** Signatures with the parentheses in the expected places *)

Section ClauseFacts.

Lemma Contains_byte c s :
  strings.Contains s (String c "") = negb (lacks c s).
Proof.
  unfold strings.Contains. induction s as [|d s IH]; [done|].
  rewrite Cut_unfold. simpl. destruct (Ascii.eqb d c); [done|].
  simpl. by destruct (strings.Cut s (String c "")) as [[? ?]|].
Qed.

Lemma before_app c sep' a b :
  lacks c a = true -> before (a +:+ String c sep' +:+ b) (String c sep') = a.
Proof. intros H. unfold before. by rewrite Cut_app. Qed.

Lemma before_lacks c s sep :
  lacks c sep = false -> lacks c s = true -> before s sep = s.
Proof. intros Hsep H. unfold before. by rewrite (Cut_lacks c). Qed.

(** One closing parenthesis at the end is what [Replace(_, ")", "", 1)]
    removes when there is none before it. *)
Lemma Replace_closing outs :
  lacks ")" outs = true -> strings.Replace (outs +:+ ")") ")" "" 1 = outs.
Proof.
  intros H. cbn [strings.Replace].
  rewrite <- (app_empty_r (outs +:+ ")")), app_assoc, Cut_app by done.
  by rewrite !app_empty_r.
Qed.

(** [")("] does not occur when every [")"] comes after the only ["("]. *)
Lemma Cut_single a b :
  lacks ")" a = true -> lacks "(" b = true ->
  strings.Cut (a +:+ "(" +:+ b) ")(" = None.
Proof.
  intros Ha Hb. induction a as [|d a IH].
  - change ("" +:+ "(" +:+ b) with (String "(" b).
    rewrite Cut_unfold. simpl.
    by rewrite (Cut_lacks "(" b ")(").
  - simpl in Ha. apply andb_prop in Ha as [Hd Ha].
    rewrite app_cons, Cut_unfold. simpl.
    destruct (Ascii.eqb d ")"); [discriminate|].
    by rewrite (IH Ha).
Qed.

Lemma Contains_open pre rest :
  strings.Contains (pre +:+ "(" +:+ rest) "(" = true.
Proof.
  rewrite Contains_byte, lacks_app.
  change ("(" +:+ rest) with (String "(" rest). simpl.
  by rewrite andb_false_r.
Qed.

Lemma plain_lacks s : plain s = true -> lacks "(" s = true /\ lacks ")" s = true.
Proof. unfold plain. by intros ?%andb_prop. Qed.

(** [pre(ins)(outs)]: the multiple-return path. *)
Lemma parse_multi pre ins outs :
  plain pre = true -> plain ins = true -> plain outs = true ->
  parseNewMethod (pre +:+ "(" +:+ ins +:+ ")(" +:+ outs +:+ ")")
  = Ok (methodOf
          (strings.TrimSpace (strings.Replace pre "function" "" 1))
          (typed ∘ strings.TrimSpace <$> filter (λ p, p ≠ "") (strings.Split ins ","))
          (typed ∘ strings.TrimSpace <$> strings.Split outs ",")).
Proof.
  intros [Hp1 Hp2]%plain_lacks [Hi1 Hi2]%plain_lacks [Ho1 Ho2]%plain_lacks.
  rewrite parseNewMethod_cut.
  rewrite (Contains_open pre) by done.
  unfold nameOf. rewrite (before_app "(" "") by done.
  rewrite <- (app_assoc "(" ins), <- (app_assoc pre ("(" +:+ ins)).
  rewrite (Cut_app ")" "(") by (by rewrite !lacks_app, Hp2, Hi2).
  rewrite (Cut_app "(" "") by done.
  rewrite (before_lacks "(" ins "(") by done.
  rewrite (before_lacks "(" (outs +:+ ")") ")(")
    by (done || by rewrite lacks_app, Ho1).
  rewrite Replace_closing by done.
  unfold parseParamsPath.
  by rewrite appendInputs_filter, appendOutputs_map.
Qed.

(** [pre(ins)out]: the single-return path. *)
Lemma parse_single pre ins out :
  plain pre = true -> plain ins = true -> plain out = true ->
  parseNewMethod (pre +:+ "(" +:+ ins +:+ ")" +:+ out)
  = Ok (methodOf
          (strings.TrimSpace (strings.Replace pre "function" "" 1))
          (typed ∘ strings.TrimSpace <$> filter (λ p, p ≠ "") (strings.Split ins ","))
          [typed (strings.TrimSpace out)]).
Proof.
  intros [Hp1 Hp2]%plain_lacks [Hi1 Hi2]%plain_lacks [Ho1 Ho2]%plain_lacks.
  rewrite parseNewMethod_cut.
  rewrite (Contains_open pre) by done.
  unfold nameOf. rewrite (before_app "(" "") by done.
  rewrite Cut_single by (done || by rewrite !lacks_app, Hi1, Ho1).
  rewrite <- (app_assoc "(" ins), <- (app_assoc pre ("(" +:+ ins)).
  assert (Hl : lacks ")" (pre +:+ "(" +:+ ins) = true)
    by (by rewrite !lacks_app, Hp2, Hi2).
  rewrite (before_app ")" "") by done.
  rewrite (Cut_app ")" "") by done.
  rewrite (Cut_app "(" "") by done.
  rewrite (before_lacks "(" ins "(") by done.
  rewrite (before_lacks ")" out ")") by done.
  unfold parseParamsPath.
  by rewrite appendInputs_filter.
Qed.

Lemma lacks_Join c ts sep :
  lacks c sep = true -> forallb (lacks c) ts = true ->
  lacks c (strings.Join ts sep) = true.
Proof.
  intros Hsep. induction ts as [|t ts IH]; [done|].
  simpl. intros [Ht Hts]%andb_prop.
  destruct ts as [|t' ts]; [done|].
  by rewrite !lacks_app, Ht, Hsep, (IH Hts).
Qed.

Lemma Split_lacks c s :
  lacks c s = true -> strings.Split s (String c "") = [s].
Proof.
  intros H. rewrite Split_unfold by done.
  rewrite (Cut_lacks c); [done| |done].
  simpl. by rewrite Ascii.eqb_refl.
Qed.

(** Splitting on [","] gives back the tokens that were joined. *)
Lemma Split_Join t ts :
  forallb (lacks ",") (t :: ts) = true ->
  strings.Split (strings.Join (t :: ts) ",") "," = t :: ts.
Proof.
  revert t. induction ts as [|t' ts IH]; intros t.
  - simpl. rewrite andb_true_r. apply Split_lacks.
  - intros [Ht Hts]%andb_prop.
    change (strings.Join (t :: t' :: ts) ",")
      with (t +:+ "," +:+ strings.Join (t' :: ts) ",").
    rewrite Split_unfold, (Cut_app "," "") by done.
    by rewrite (IH t' Hts).
Qed.

Lemma Split_Join_filter ts :
  forallb (lacks ",") ts = true ->
  filter (λ p, p ≠ "") (strings.Split (strings.Join ts ",") ",")
  = filter (λ p, p ≠ "") ts.
Proof.
  destruct ts as [|t ts]; intros H.
  - done.
  - by rewrite Split_Join.
Qed.

End ClauseFacts.

(** ** The parser on well-formed signatures *)

Section ParserClaims.

Lemma Replace_absent s old new n :
  strings.Contains s old = false -> strings.Replace s old new n = s.
Proof.
  unfold strings.Contains. intros H. destruct n as [|n]; [done|].
  simpl. by destruct (strings.Cut s old) as [[? ?]|].
Qed.

Lemma typeToken_plain ts :
  forallb typeToken ts = true -> plain (strings.Join ts ",") = true.
Proof.
  intros H. unfold plain.
  rewrite !lacks_Join; [done|done| |done|].
  - apply forallb_forall. intros t Ht.
    apply (proj1 (forallb_forall _ _) H) in Ht.
    unfold typeToken, plain in Ht.
    by apply andb_prop in Ht as [[? ?]%andb_prop ?].
  - apply forallb_forall. intros t Ht.
    apply (proj1 (forallb_forall _ _) H) in Ht.
    unfold typeToken, plain in Ht.
    by apply andb_prop in Ht as [[? ?]%andb_prop ?].
Qed.

Lemma typeToken_commas ts :
  forallb typeToken ts = true -> forallb (lacks ",") ts = true.
Proof.
  intros H. apply forallb_forall. intros t Ht.
  apply (proj1 (forallb_forall _ _) H) in Ht.
  unfold typeToken in Ht. by apply andb_prop in Ht as [_ ?].
Qed.






(** C5. The zero-argument signatures [foo()(uint256)] and [foo()uint256]
    parse to a method without inputs: the empty list, not a list holding one
    argument of empty type. *)
Theorem parse_zero_arguments :
  parseNewMethod "foo()(uint256)"
  = Ok {| Method.Name := "foo";
          Method.Inputs := [];
          Method.Outputs := [typed "uint256"];
          Method.Type_ := "function";
          Method.StateMutability := "view" |}
  /\
  parseNewMethod "foo()uint256"
  = Ok {| Method.Name := "foo";
          Method.Inputs := [];
          Method.Outputs := [typed "uint256"];
          Method.Type_ := "function";
          Method.StateMutability := "view" |}.
Proof. split; vm_compute; reflexivity. Qed.

Lemma Cut_Contains c s sep b a :
  strings.Cut s sep = Some (b, a) ->
  strings.Contains s (String c "") = false ->
  strings.Contains b (String c "") = false /\ lacks c sep = true.
Proof.
  intros Hcut Hs. apply Cut_Some in Hcut. subst s.
  rewrite Contains_byte in *. apply negb_false_iff in Hs.
  rewrite !lacks_app in Hs.
  apply andb_prop in Hs as [Hb [Hsep _]%andb_prop].
  by rewrite Hb.
Qed.

(** The three ways [parseNewMethod] can end. *)
Lemma parseNewMethod_outcome signature :
  (strings.Contains signature "(" = false /\
   hasParameterList signature = false /\
   parseNewMethod signature = Panic invalidFormat)
  \/
  (strings.Contains signature "(" = true /\
   hasParameterList signature = false /\
   parseNewMethod signature = Panic (IndexOutOfRange 1 1))
  \/
  (strings.Contains signature "(" = true /\
   hasParameterList signature = true /\
   exists m, parseNewMethod signature = Ok m).
Proof.
  rewrite parseNewMethod_cut. unfold hasParameterList.
  destruct (strings.Contains signature "(") eqn:Hopen.
  - right.
    destruct (strings.Cut signature ")(") as [[ins outs]|] eqn:Hmulti.
    + unfold strings.Contains.
      destruct (strings.Cut ins "(") as [[? params]|]; [right|left]; eauto.
    + unfold before.
      destruct (strings.Cut signature ")") as [[ins ret]|] eqn:Hsingle.
      * unfold strings.Contains.
        destruct (strings.Cut ins "(") as [[? params]|]; [right|left]; eauto.
      * left. by destruct (strings.Cut signature "(") as [[? ?]|].
  - left. split; [done|]. split; [|done].
    destruct (strings.Cut signature ")(") as [[ins outs]|] eqn:Hmulti.
    + by destruct (Cut_Contains "(" _ _ _ _ Hmulti Hopen).
    + destruct (strings.Cut signature ")") as [[ins ret]|] eqn:Hsingle; [|done].
      by destruct (Cut_Contains "(" _ _ _ _ Hsingle Hopen).
Qed.

(** C6, amended. [parseNewMethod] raises its panic "Function is invalid
    format!" exactly when the signature contains no ["("].  A signature with
    a ["("] returns a method exactly when a ["("] stands before its first
    [")("] or, without [")("], before its first [")"]; any other signature
    with a ["("] aborts on an index out of range. *)
Theorem parse_outcomes (signature : string) :
  (parseNewMethod signature = Panic invalidFormat
   <-> strings.Contains signature "(" = false)
  /\
  ((exists m, parseNewMethod signature = Ok m)
   <-> hasParameterList signature = true)
  /\
  (parseNewMethod signature = Panic (IndexOutOfRange 1 1)
   <-> strings.Contains signature "(" = true
       /\ hasParameterList signature = false).
Proof.
  destruct (parseNewMethod_outcome signature)
    as [(Ho & Hl & Hp) | [(Ho & Hl & Hp) | (Ho & Hl & m & Hp)]];
    rewrite Hp, Ho, Hl; repeat split; try done;
    try (intros [? ?]; done); try (intros [? ?]; discriminate); eauto.
Qed.

(** C6 as stated fails: ["foo("] contains a ["("] and [parseNewMethod]
    aborts on it. *)
Lemma parse_aborts_with_paren :
  ~ (forall signature,
       (exists p, parseNewMethod signature = Panic p)
       <-> strings.Contains signature "(" = false).
Proof.
  intros H. destruct (H "foo(") as [H1 _].
  assert (Hc : strings.Contains "foo(" "(" = false)
    by (apply H1; eexists; vm_compute; reflexivity).
  vm_compute in Hc. discriminate.
Qed.

(** C7. In the multiple-return path the empty tokens of the input clause
    are skipped, while every token of the output clause, obtained by
    removing the closing [")"] and splitting on [","], is kept after
    trimming, empty or not: [foo(uint256)(uint256,)] has one input and two
    outputs, the second of empty type. *)
Theorem multi_clause_empty_tokens (pre : string) (ts : list string)
    (o : string) (os : list string) :
  plain pre = true ->
  forallb typeToken ts = true ->
  forallb typeToken (o :: os) = true ->
  (exists m,
     parseNewMethod
       (pre +:+ "(" +:+ strings.Join ts "," +:+ ")(" +:+
          strings.Join (o :: os) "," +:+ ")") = Ok m
     /\ Method.Inputs m
        = typed <$> (strings.TrimSpace <$> filter (λ t, t ≠ "") ts)
     /\ Method.Outputs m = typed <$> (strings.TrimSpace <$> o :: os))
  /\
  parseNewMethod "foo(uint256)(uint256,)"
  = Ok {| Method.Name := "foo";
          Method.Inputs := [typed "uint256"];
          Method.Outputs := [typed "uint256"; typed ""];
          Method.Type_ := "function";
          Method.StateMutability := "view" |}.
Proof.
  intros Hpre Hts Hos. split; [|by vm_compute].
  eexists. split.
  - apply parse_multi; by (done || apply typeToken_plain).
  - unfold methodOf. cbn [Method.Inputs Method.Outputs].
    rewrite Split_Join_filter, Split_Join by (by apply typeToken_commas).
    by rewrite !list_fmap_compose.
Qed.

Lemma multi_clause_empty_tokens_witness :
  plain "foo" = true /\
  forallb typeToken [""; "uint256"; ""] = true /\
  forallb typeToken ["uint256"; ""] = true /\
  exists m,
    parseNewMethod "foo(,uint256,)(uint256,)" = Ok m
    /\ Method.Inputs m = [typed "uint256"]
    /\ Method.Outputs m = [typed "uint256"; typed ""].
Proof.
  do 3 (split; [reflexivity|]).
  exact (proj1 (multi_clause_empty_tokens "foo" [""; "uint256"; ""]
                  "uint256" [""] eq_refl eq_refl eq_refl)).
Defined.

(** C8 fails on the code: [strings.Replace(_, "function", "", 1)] deletes
    the first occurrence of [function] wherever it stands, so the name
    [myfunction] is registered as [my]. *)
Theorem parse_name_inner_function :
  parseNewMethod "myfunction()(uint256)"
  = Ok {| Method.Name := "my";
          Method.Inputs := [];
          Method.Outputs := [typed "uint256"];
          Method.Type_ := "function";
          Method.StateMutability := "view" |}.
Proof. by vm_compute. Qed.

(** The name of a parsed method, in general. *)
Lemma parse_name signature m :
  parseNewMethod signature = Ok m -> Method.Name m = nameOf signature.
Proof.
  rewrite parseNewMethod_cut.
  repeat (case_match; try discriminate); by intros [= <-].
Qed.

(** A leading keyword is what the parser removes, whatever the name. *)
Lemma parse_leading_keyword name ins outs :
  plain name = true -> strings.TrimSpace name = name ->
  plain ins = true -> plain outs = true ->
  exists m,
    parseNewMethod
      (("function " +:+ name) +:+ "(" +:+ ins +:+ ")(" +:+ outs +:+ ")") = Ok m
    /\ Method.Name m = name.
Proof.
  intros Hname Htrim Hins Houts. eexists. split.
  - apply parse_multi; [|done..].
    unfold plain in *. rewrite !lacks_app.
    apply andb_prop in Hname as [-> ->]. done.
  - unfold methodOf. cbn [Method.Name strings.Replace].
    change ("function " +:+ name) with ("function" +:+ String " " name).
    rewrite Cut_unfold, CutPrefix_app.
    by rewrite !app_empty_l, TrimSpace_space.
Qed.

(** C9. The loop over the input tokens tests the raw token against the
    empty string and trims afterwards: in both paths the inputs are the
    trimmed tokens that are not literally empty, so a token of white space
    only (as in [foo( )(uint256)]) yields an input of empty type. *)
Theorem whitespace_input_token_kept (pre : string) (ts : list string)
    (outs ret t : string) :
  plain pre = true ->
  forallb typeToken ts = true ->
  plain outs = true ->
  plain ret = true ->
  In t ts -> t <> "" -> strings.TrimSpace t = "" ->
  (exists m1 m2,
     parseNewMethod
       (pre +:+ "(" +:+ strings.Join ts "," +:+ ")(" +:+ outs +:+ ")") = Ok m1
     /\ parseNewMethod
          (pre +:+ "(" +:+ strings.Join ts "," +:+ ")" +:+ ret) = Ok m2
     /\ Method.Inputs m1
        = typed <$> (strings.TrimSpace <$> filter (λ p, p ≠ "") ts)
     /\ Method.Inputs m2 = Method.Inputs m1
     /\ In (typed "") (Method.Inputs m1))
  /\
  parseNewMethod "foo( )(uint256)"
  = Ok {| Method.Name := "foo";
          Method.Inputs := [typed ""];
          Method.Outputs := [typed "uint256"];
          Method.Type_ := "function";
          Method.StateMutability := "view" |}.
Proof.
  intros Hpre Hts Houts Hret Hin Hne Ht. split; [|by vm_compute].
  eexists _, _. split; [|split].
  - apply parse_multi; by (done || apply typeToken_plain).
  - apply parse_single; by (done || apply typeToken_plain).
  - unfold methodOf. cbn [Method.Inputs].
    rewrite Split_Join_filter by (by apply typeToken_commas).
    rewrite !list_fmap_compose. split; [done|]. split; [done|].
    apply list_elem_of_In.
    replace (typed "") with (typed (strings.TrimSpace t)) by (by rewrite Ht).
    apply list_elem_of_fmap_2, list_elem_of_fmap_2.
    apply list_elem_of_filter. split; [exact Hne|]. by apply list_elem_of_In.
Qed.

Lemma whitespace_input_token_kept_witness :
  plain "foo" = true /\
  forallb typeToken ["address"; " "] = true /\
  plain "uint256" = true /\
  In " " ["address"; " "] /\
  " " <> "" /\
  strings.TrimSpace " " = "" /\
  exists m1 m2,
    parseNewMethod "foo(address, )(uint256)" = Ok m1
    /\ parseNewMethod "foo(address, )uint256" = Ok m2
    /\ Method.Inputs m1 = [typed "address"; typed ""]
    /\ Method.Inputs m2 = Method.Inputs m1
    /\ In (typed "") (Method.Inputs m1).
Proof.
  assert (Hin : In " " ["address"; " "]) by (right; left; reflexivity).
  assert (Hne : " " <> "") by discriminate.
  do 3 (split; [reflexivity|]).
  split; [exact Hin|]. split; [exact Hne|]. split; [reflexivity|].
  exact (proj1 (whitespace_input_token_kept "foo" ["address"; " "]
                  "uint256" "uint256" " "
                  eq_refl eq_refl eq_refl eq_refl Hin Hne eq_refl)).
Defined.

End ParserClaims.

(** ** The session *)

Section SessionFacts.

Context `{External}.

(** *** The batch executor *)

(** After the loop of [Call], a label holds what the last entry carrying it
    unpacked to. *)
Lemma unpackInto_lookup abi results (l : list core.Call)
    (m : gmap string (list value)) (label : string) :
  fold_left (unpackInto abi results) l m !! label =
    match last (filter (λ c, core.Name c = label) l) with
    | Some c =>
        Some (Unpack abi (core.Method c) (returnDataOf results label)).1
    | None => m !! label
    end.
Proof.
  revert m. induction l as [|c l IH]; intros m; [done|].
  cbn [fold_left]. rewrite IH. unfold unpackInto.
  destruct (decide (core.Name c = label)) as [Hc|Hc].
  - rewrite filter_cons_True, last_cons by done.
    destruct (last (filter _ l)); [done|].
    by rewrite <- Hc, lookup_insert_eq.
  - rewrite filter_cons_False by done.
    destruct (last (filter _ l)); [done|].
    by rewrite lookup_insert_ne.
Qed.

Lemma unpackInto_dom abi results (l : list core.Call)
    (m : gmap string (list value)) :
  dom (fold_left (unpackInto abi results) l m)
  = dom m ∪ list_to_set (core.Name <$> l).
Proof.
  revert m. induction l as [|c l IH]; intros m; cbn [fold_left].
  - by rewrite fmap_nil, list_to_set_nil, (right_id_L ∅ (∪)).
  - rewrite IH. unfold unpackInto.
    rewrite dom_insert_L, fmap_cons, list_to_set_cons.
    by rewrite (comm_L (∪) {[core.Name c]} (dom m)), (assoc_L (∪)).
Qed.

Lemma Call_returns a blockNumber :
  Call a blockNumber
  = Returns
      ((executed a blockNumber).1.1,
       fold_left (unpackInto (contractAbi a) (executed a blockNumber).1.2)
         (calls a) ∅,
       (executed a blockNumber).2)
      (ClearCall a).
Proof.
  unfold Call, executed.
  by destruct (Execute (multiCaller a) (calls a) blockNumber) as [[? ?] ?].
Qed.

(** X17. Two entries under one label: the later one decides the result.
    The map [Call] returns holds, under a label, what the last entry of the
    batch with that label unpacks to, and nothing under any other key. *)
Lemma Call_last_write_wins a blockNumber label :
  (match Call a blockNumber with
   | Returns r _ => r.1.2
   | Panics _ _ => ∅
   end) !! label
  = (λ c, (unpacked a (executed a blockNumber).1.2 c).1)
      <$> last (filter (λ c, core.Name c = label) (calls a)).
Proof.
  rewrite Call_returns. cbn [fst snd]. rewrite unpackInto_lookup.
  destruct (last _) as [c|] eqn:Hlast; [|done].
  apply last_Some_elem_of, list_elem_of_filter in Hlast as [Hname _].
  simpl. unfold unpacked. by rewrite Hname.
Qed.


(** C3. Whatever the aggregator answers, [Call] leaves the pending batch
    empty; an [AddCall] after it makes a batch of the new entry alone, and
    the next [Call] hands the aggregator that entry only and returns a
    result for its label only. *)
Theorem Call_clears_batch (a : contract) (blockNumber : option Z) :
  calls (stateOf (Call a blockNumber)) = []
  /\
  forall callName contractAddress method args a' blockNumber',
    AddCall (stateOf (Call a blockNumber)) callName contractAddress method args
    = Returns tt a' ->
    let new := entry a callName contractAddress method args in
    let answer := Execute (multiCaller a) [new] blockNumber' in
    calls a' = [new]
    /\ Call a' blockNumber'
       = Returns
           (answer.1.1,
            {[ callName := (unpacked a answer.1.2 new).1 ]},
            answer.2)
           (ClearCall a').
Proof.
  rewrite Call_returns. split; [done|].
  intros callName contractAddress method args a' blockNumber'.
  unfold AddCall, entry. cbn [stateOf ClearCall setCalls contractAbi calls].
  destruct (Pack (contractAbi a) method args) as [callData [e|]]; [done|].
  intros [= <-]. cbn zeta. split; [done|].
  rewrite Call_returns. unfold executed.
  cbn [setCalls calls multiCaller contractAbi app fst snd].
  unfold unpacked, unpackInto. simpl. by rewrite insert_empty.
Qed.

(** *** The method registry *)

Lemma lowerByte_idemp c : strings.lowerByte (strings.lowerByte c) = strings.lowerByte c.
Proof. by destruct c as [[] [] [] [] [] [] [] []]. Qed.

Lemma lowerByte_ascii c :
  (nat_of_ascii (strings.lowerByte c) <? 128) = (nat_of_ascii c <? 128).
Proof. by destruct c as [[] [] [] [] [] [] [] []]. Qed.

Lemma lowerASCII_idemp s :
  strings.lowerASCII (strings.lowerASCII s) = strings.lowerASCII s.
Proof. induction s as [|c s IH]; [done|]. simpl. by rewrite lowerByte_idemp, IH. Qed.

Lemma isASCII_lowerASCII s : strings.isASCII (strings.lowerASCII s) = strings.isASCII s.
Proof. induction s as [|c s IH]; [done|]. simpl. by rewrite lowerByte_ascii, IH. Qed.

Section Folding.

(** [unicode.ToLower] lowers the ASCII letters as the ASCII branch does. *)
Hypothesis mapToLower_ascii :
  forall s, mapToLower (strings.lowerASCII s) = mapToLower s.

Lemma ToLower_lowerASCII s : ToLower (strings.lowerASCII s) = ToLower s.
Proof.
  unfold ToLower. rewrite isASCII_lowerASCII.
  destruct (strings.isASCII s); [apply lowerASCII_idemp|apply mapToLower_ascii].
Qed.

Lemma ToLower_equalFold s t : equalFold s t -> ToLower s = ToLower t.
Proof.
  unfold equalFold. intros Heq.
  by rewrite <- (ToLower_lowerASCII s), Heq, ToLower_lowerASCII.
Qed.

End Folding.

Lemma AddMethod_Returns a s a' :
  AddMethod a s = Returns tt a' -> rawMethods a' !! ToLower s = Some s.
Proof.
  unfold AddMethod.
  destruct (rawMethods a !! ToLower s); [done|].
  destruct (parseNewMethod s) as [m|p]; [|done].
  cbn [setMethods setRawMethods methods].
  destruct (repackAbi _) as [newAbi [e|]]; [done|].
  intros [= <-]. cbn. apply lookup_insert_eq.
Qed.

Lemma AddMethod_keeps a s key :
  is_Some (rawMethods a !! key) ->
  is_Some (rawMethods (stateOf (AddMethod a s)) !! key).
Proof.
  intros Hkey. unfold AddMethod.
  destruct (rawMethods a !! ToLower s) eqn:Hs; [done|].
  assert (Hins : is_Some (<[ToLower s := s]> (rawMethods a) !! key)).
  { rewrite lookup_insert_ne; [done|]. intros <-. rewrite Hs in Hkey.
    by destruct Hkey. }
  destruct (parseNewMethod s) as [m|p]; [|done].
  cbn [setMethods setRawMethods methods].
  by destruct (repackAbi _) as [newAbi [e|]].
Qed.

Lemma step_keeps a a' key :
  step a a' -> is_Some (rawMethods a !! key) -> is_Some (rawMethods a' !! key).
Proof.
  intros Hstep Hkey. destruct Hstep as [a ?|a ?|a ?|a ? ? ? ?|a ?|a].
  - done.
  - unfold AtAddress. by destruct (NewMultiCaller _ _) as [? [?|]].
  - by apply AddMethod_keeps.
  - unfold AddCall. by destruct (Pack _ _ _) as [? [?|]].
  - by rewrite Call_returns.
  - done.
Qed.

Lemma registered_lookup s a :
  registered s a -> is_Some (rawMethods a !! ToLower s).
Proof.
  induction 1 as [a a' Hadd|a a' _ IH Hstep].
  - rewrite (AddMethod_Returns _ _ _ Hadd). by eexists.
  - by apply (step_keeps a).
Qed.

(** C4. Once a signature [s'] has been registered, [AddMethod(s)] panics
    with the duplicate-method message for every [s] equal to [s'] up to the
    case of the ASCII letters, and leaves the session as it was: the raw
    signatures, the method list and the compiled description are those from
    before the call. *)
Theorem AddMethod_duplicate (a : contract) (s s' : string) :
  (forall t, mapToLower (strings.lowerASCII t) = mapToLower t) ->
  registered s' a ->
  equalFold s s' ->
  exists existCall,
    AddMethod a s = Panics (duplicate existCall) a
    /\ rawMethods (stateOf (AddMethod a s)) = rawMethods a
    /\ methods (stateOf (AddMethod a s)) = methods a
    /\ contractAbi (stateOf (AddMethod a s)) = contractAbi a.
Proof.
  intros Hmap Hreg Heq.
  apply registered_lookup in Hreg as [existCall Hkey].
  rewrite <- (ToLower_equalFold Hmap s s' Heq) in Hkey.
  exists existCall. unfold AddMethod. by rewrite Hkey.
Qed.

(** A new signature that does not parse is stored all the same before the
    parser panics; the method list is not touched then. *)
Lemma AddMethod_malformed a s p :
  rawMethods a !! ToLower s = None ->
  parseNewMethod s = Panic p ->
  AddMethod a s
  = Panics (Runtime p) (setRawMethods a (<[ToLower s := s]> (rawMethods a))).
Proof. intros Hnew Hparse. unfold AddMethod. by rewrite Hnew, Hparse. Qed.

(** C10. For a signature that is not a duplicate and parses, [AddMethod]
    has stored the lower-cased signature and appended the parsed method by
    the time it recompiles the description; when the recompilation fails it
    panics with that error, the registry holding the new entry and the
    compiled description being the previous one. *)
Theorem AddMethod_not_atomic (a : contract) (s : string) (m : Method.t)
    (e : error) :
  rawMethods a !! ToLower s = None ->
  parseNewMethod s = Ok m ->
  (repackAbi (methods a ++ [m])).2 = Some e ->
  AddMethod a s
  = Panics (PanicError e)
      (setMethods (setRawMethods a (<[ToLower s := s]> (rawMethods a)))
         (methods a ++ [m]))
  /\ rawMethods (stateOf (AddMethod a s)) !! ToLower s = Some s
  /\ methods (stateOf (AddMethod a s)) = methods a ++ [m]
  /\ contractAbi (stateOf (AddMethod a s)) = contractAbi a.
Proof.
  intros Hnew Hparse Hfail. unfold AddMethod. rewrite Hnew, Hparse.
  cbn [setMethods setRawMethods methods].
  destruct (repackAbi (methods a ++ [m])) as [newAbi err].
  simpl in Hfail. subst err. cbn. split; [done|].
  split; [apply lookup_insert_eq|done].
Qed.

End SessionFacts.

(** ** The statements at work on a session *)

Example demo_cycle :
  methods demoSession = [viewFunction "totalSupply" [] ["uint256"]]
  /\ (match Call demoBatch (Some 5%Z) with
      | Returns r a => (r.1.1, r.1.2 !! "ts", r.2, calls a)
      | Panics _ a => (None, None, None, calls a)
      end)
     = (Some 5%Z, Some [list_byte_of_string "totalSupply"], None, [])
  /\ (match Call demoBatch None with
      | Returns r a => (r.1.1, r.1.2 !! "ts", r.2, calls a)
      | Panics _ a => (None, None, None, calls a)
      end)
     = (None, Some [], Some "no block", []).
Proof. vm_compute. repeat split. Qed.


Lemma Call_clears_batch_witness :
  calls (stateOf (Call demoBatch None)) = []
  /\
  exists a',
    AddCall (stateOf (Call demoBatch None)) "d" "0xBBB" "decimals" []
    = Returns tt a'
    /\ calls a' = [entry demoBatch "d" "0xBBB" "decimals" []]
    /\ dom (match Call a' (Some 7%Z) with
            | Returns r _ => r.1.2
            | Panics _ _ => ∅
            end) = {["d"]}.
Proof.
  destruct (Call_clears_batch demoBatch None) as [Hempty Hnext].
  split; [exact Hempty|].
  exists (setCalls (stateOf (Call demoBatch None))
            [entry demoBatch "d" "0xBBB" "decimals" []]).
  assert (Hadd : AddCall (stateOf (Call demoBatch None)) "d" "0xBBB" "decimals" []
                 = Returns tt
                     (setCalls (stateOf (Call demoBatch None))
                        [entry demoBatch "d" "0xBBB" "decimals" []]))
    by (vm_compute; reflexivity).
  destruct (Hnext "d" "0xBBB" "decimals" [] _ (Some 7%Z) Hadd) as [Hcalls Hcall].
  split; [exact Hadd|]. split; [exact Hcalls|].
  rewrite Hcall. apply dom_singleton_L.
Defined.

Lemma AddMethod_duplicate_witness :
  registered "function totalSupply()(uint256)" demoBatch /\
  equalFold "FUNCTION TotalSupply()(UINT256)" "function totalSupply()(uint256)" /\
  exists existCall,
    AddMethod demoBatch "FUNCTION TotalSupply()(UINT256)"
    = Panics (duplicate existCall) demoBatch
    /\ rawMethods (stateOf (AddMethod demoBatch "FUNCTION TotalSupply()(UINT256)"))
       = rawMethods demoBatch
    /\ methods (stateOf (AddMethod demoBatch "FUNCTION TotalSupply()(UINT256)"))
       = methods demoBatch
    /\ contractAbi (stateOf (AddMethod demoBatch "FUNCTION TotalSupply()(UINT256)"))
       = contractAbi demoBatch.
Proof.
  assert (Hreg : registered "function totalSupply()(uint256)" demoBatch).
  { apply (registered_before _ demoSession).
    - apply (registered_now _ NewContractBuilder). vm_compute. reflexivity.
    - apply step_AddCall. }
  assert (Heq : equalFold "FUNCTION TotalSupply()(UINT256)"
                  "function totalSupply()(uint256)") by reflexivity.
  split; [exact Hreg|]. split; [exact Heq|].
  exact (AddMethod_duplicate demoBatch _ _ lowerASCII_idemp Hreg Heq).
Defined.

Lemma AddMethod_not_atomic_witness :
  rawMethods demoSession !! ToLower (H := demo) "balanceOf(address)(uint256)" = None /\
  parseNewMethod "balanceOf(address)(uint256)"
  = Ok (viewFunction "balanceOf" ["address"] ["uint256"]) /\
  AddMethod demoSession "balanceOf(address)(uint256)"
  = Panics (PanicError (H := demo) "description too long")
      (setMethods
         (setRawMethods demoSession
            (<["balanceof(address)(uint256)" := "balanceOf(address)(uint256)"]>
               (rawMethods demoSession)))
         (methods demoSession ++ [viewFunction "balanceOf" ["address"] ["uint256"]]))
  /\ contractAbi (stateOf (AddMethod demoSession "balanceOf(address)(uint256)"))
     = contractAbi demoSession.
Proof.
  assert (Hnew : rawMethods demoSession !! ToLower (H := demo) "balanceOf(address)(uint256)"
                 = None) by (vm_compute; reflexivity).
  assert (Hparse : parseNewMethod "balanceOf(address)(uint256)"
                   = Ok (viewFunction "balanceOf" ["address"] ["uint256"]))
    by (vm_compute; reflexivity).
  split; [exact Hnew|]. split; [exact Hparse|].
  destruct (AddMethod_not_atomic demoSession "balanceOf(address)(uint256)"
              (viewFunction "balanceOf" ["address"] ["uint256"])
              "description too long" Hnew Hparse eq_refl) as (Hadd & _ & _ & Habi).
  split; [exact Hadd|exact Habi].
Defined.

(** * Further properties *)

(** ** Of the parser *)

Section ParserShape.

Lemma Split_nonempty s sep : strings.Split s sep <> [].
Proof.
  unfold strings.Split. destruct (String.length s); simpl; [done|].
  by destruct (strings.Cut s sep) as [[? ?]|].
Qed.

Lemma Forall_typed (P : Argument.t -> Prop) (f : string -> string) l :
  (forall t, P (typed (f t))) -> Forall P (typed ∘ f <$> l).
Proof. intros HP. apply Forall_fmap, Forall_forall. intros t _. apply HP. Qed.

(** The arguments of a parsed method, as lists of raw tokens. *)
Lemma parse_arguments signature m :
  parseNewMethod signature = Ok m ->
  exists ins outs,
    outs <> []
    /\ (strings.Contains signature ")(" = false -> length outs = 1)
    /\ m = methodOf (nameOf signature)
             (typed ∘ strings.TrimSpace <$> ins)
             (typed ∘ strings.TrimSpace <$> outs).
Proof.
  rewrite parseNewMethod_cut. unfold strings.Contains at 2.
  repeat (case_match; try discriminate); intros [= <-].
  - eexists _, _. split; [|split; [done|]].
    + apply Split_nonempty.
    + by rewrite appendInputs_filter, appendOutputs_map.
  - eexists _, [_]. split; [done|]. split; [done|].
    by rewrite appendInputs_filter.
Qed.

(** X1. Whatever signature it is given, a method that [parseNewMethod]
    returns has the type "function" and the mutability "view", is named by
    the trimmed text before the first ["("] with the first [function]
    removed, and has only arguments without a name whose internal type is
    their type. *)
Theorem parse_shape (signature : string) (m : Method.t) :
  parseNewMethod signature = Ok m ->
  Method.Type_ m = "function"
  /\ Method.StateMutability m = "view"
  /\ Method.Name m
     = strings.TrimSpace
         (strings.Replace (before signature "(") "function" "" 1)
  /\ Forall anonymous (Method.Inputs m ++ Method.Outputs m).
Proof.
  intros (ins & outs & _ & _ & ->)%parse_arguments.
  do 3 (split; [done|]). cbn [methodOf Method.Inputs Method.Outputs].
  apply Forall_app. split; by apply Forall_typed.
Qed.

Lemma parse_shape_witness :
  parseNewMethod " function f ( a , b )( c )"
  = Ok (viewFunction "f" ["a"; "b"] ["c"])
  /\ Method.Type_ (viewFunction "f" ["a"; "b"] ["c"]) = "function"
  /\ Method.StateMutability (viewFunction "f" ["a"; "b"] ["c"]) = "view"
  /\ Method.Name (viewFunction "f" ["a"; "b"] ["c"])
     = strings.TrimSpace
         (strings.Replace (before " function f ( a , b )( c )" "(")
            "function" "" 1)
  /\ Forall anonymous
       (Method.Inputs (viewFunction "f" ["a"; "b"] ["c"])
        ++ Method.Outputs (viewFunction "f" ["a"; "b"] ["c"])).
Proof.
  assert (Hp : parseNewMethod " function f ( a , b )( c )"
               = Ok (viewFunction "f" ["a"; "b"] ["c"]))
    by (vm_compute; reflexivity).
  exact (conj Hp (parse_shape _ _ Hp)).
Defined.

(** X2. A method that [parseNewMethod] returns has at least one output,
    and exactly one when the signature has no [")("]: a function without a
    return value cannot be written, [foo()] gets one output of empty
    type. *)
Theorem parse_outputs_nonempty (signature : string) (m : Method.t) :
  parseNewMethod signature = Ok m ->
  Method.Outputs m <> []
  /\ (strings.Contains signature ")(" = false -> length (Method.Outputs m) = 1).
Proof.
  intros (ins & outs & Hne & Hone & ->)%parse_arguments.
  cbn [methodOf Method.Outputs]. split.
  - by destruct outs.
  - intros Hs. by rewrite length_fmap, Hone.
Qed.

Lemma parse_outputs_nonempty_witness :
  parseNewMethod "foo()" = Ok (viewFunction "foo" [] [""])
  /\ Method.Outputs (viewFunction "foo" [] [""]) <> []
  /\ (strings.Contains "foo()" ")(" = false ->
      length (Method.Outputs (viewFunction "foo" [] [""])) = 1).
Proof.
  assert (Hp : parseNewMethod "foo()" = Ok (viewFunction "foo" [] [""]))
    by (vm_compute; reflexivity).
  exact (conj Hp (parse_outputs_nonempty _ _ Hp)).
Defined.

End ParserShape.

Section ParserEdges.

(** X3. When the keyword [function] and a space stand in front, the name
    is recovered whatever it is, even one that contains the word [function]:
    for a name without parenthesis and without white space around it, both
    [function name(ins)(outs)] and [function name(ins)ret] parse to a method
    called [name]. *)
Theorem parse_keyword_name (name ins outs ret : string) :
  plain name = true ->
  strings.TrimSpace name = name ->
  plain ins = true -> plain outs = true -> plain ret = true ->
  exists m1 m2,
    parseNewMethod
      (("function " +:+ name) +:+ "(" +:+ ins +:+ ")(" +:+ outs +:+ ")") = Ok m1
    /\ parseNewMethod
         (("function " +:+ name) +:+ "(" +:+ ins +:+ ")" +:+ ret) = Ok m2
    /\ Method.Name m1 = name
    /\ Method.Name m2 = name.
Proof.
  intros Hname Htrim Hins Houts Hret.
  assert (Hpre : plain ("function " +:+ name) = true).
  { unfold plain in *. rewrite !lacks_app.
    by apply andb_prop in Hname as [-> ->]. }
  assert (Hn : strings.TrimSpace
                 (strings.Replace ("function " +:+ name) "function" "" 1) = name).
  { cbn [strings.Replace].
    change ("function " +:+ name) with ("function" +:+ String " " name).
    rewrite Cut_unfold, CutPrefix_app.
    by rewrite !app_empty_l, TrimSpace_space. }
  eexists _, _. split; [by apply parse_multi|].
  split; [by apply parse_single|].
  by cbn [methodOf Method.Name].
Qed.

Lemma parse_keyword_name_witness :
  plain "myfunction" = true /\
  strings.TrimSpace "myfunction" = "myfunction" /\
  plain "address" = true /\
  plain "uint256" = true /\
  exists m1 m2,
    parseNewMethod "function myfunction(address)(uint256)" = Ok m1
    /\ parseNewMethod "function myfunction(address)uint256" = Ok m2
    /\ Method.Name m1 = "myfunction"
    /\ Method.Name m2 = "myfunction".
Proof.
  do 4 (split; [reflexivity|]).
  exact (parse_keyword_name "myfunction" "address" "uint256" "uint256"
           eq_refl eq_refl eq_refl eq_refl eq_refl).
Defined.

(** A byte in front that is no part of a separator moves into the first
    piece of every cut. *)
Lemma Cut_cons d s c sep' :
  Ascii.eqb d c = false ->
  strings.Cut (String d s) (String c sep')
  = match strings.Cut s (String c sep') with
    | Some (b, a) => Some (String d b, a)
    | None => None
    end.
Proof. intros Hd. rewrite Cut_unfold. simpl. by rewrite Hd. Qed.

Lemma before_cons d s c sep' :
  Ascii.eqb d c = false ->
  before (String d s) (String c sep') = String d (before s (String c sep')).
Proof.
  intros Hd. unfold before. rewrite Cut_cons by done.
  by destruct (strings.Cut s (String c sep')) as [[? ?]|].
Qed.

Lemma Contains_cons d s c sep' :
  Ascii.eqb d c = false ->
  strings.Contains (String d s) (String c sep')
  = strings.Contains s (String c sep').
Proof.
  intros Hd. unfold strings.Contains. rewrite Cut_cons by done.
  by destruct (strings.Cut s (String c sep')) as [[? ?]|].
Qed.

Lemma Replace_cons d s c old' new :
  Ascii.eqb d c = false ->
  strings.Replace (String d s) (String c old') new 1
  = String d (strings.Replace s (String c old') new 1).
Proof.
  intros Hd. cbn [strings.Replace]. rewrite Cut_cons by done.
  by destruct (strings.Cut s (String c old')) as [[? ?]|].
Qed.

(** A byte in front that [TrimSpace] removes does not change the parse. *)
Lemma parseNewMethod_cons d signature :
  Ascii.eqb d "(" = false -> Ascii.eqb d ")" = false ->
  Ascii.eqb d "f" = false ->
  (forall s, strings.TrimSpace (String d s) = strings.TrimSpace s) ->
  parseNewMethod (String d signature) = parseNewMethod signature.
Proof.
  intros Hopen Hclose Hf Htrim.
  rewrite !parseNewMethod_cut. unfold nameOf.
  rewrite Contains_cons, !before_cons, Replace_cons, Htrim by done.
  rewrite !(Cut_cons d signature) by done.
  destruct (strings.Contains signature "("); [|done].
  destruct (strings.Cut signature ")(") as [[ins outs]|].
  - rewrite Cut_cons by done.
    by destruct (strings.Cut ins "(") as [[? ?]|].
  - rewrite Cut_cons by done.
    destruct (strings.Cut (before signature ")") "(") as [[? ?]|]; [|done].
    by destruct (strings.Cut signature ")") as [[? ?]|].
Qed.

Lemma asciiSpace_cases d :
  asciiSpace d = true ->
  Ascii.eqb d "(" = false /\ Ascii.eqb d ")" = false
  /\ Ascii.eqb d "f" = false
  /\ forall s, strings.TrimSpace (String d s) = strings.TrimSpace s.
Proof.
  unfold asciiSpace. simpl. rewrite !orb_true_iff.
  intros [H|[H|[H|[H|[H|[H|H]]]]]]; try discriminate;
    apply Ascii.eqb_eq in H; subst d; repeat split.
Qed.

(** X4. An ASCII white-space byte in front of a signature changes nothing:
    the parser returns the same method, or panics in the same way, as for
    the signature without it. *)
Theorem parse_leading_space (d : ascii) (signature : string) :
  asciiSpace d = true ->
  parseNewMethod (String d signature) = parseNewMethod signature.
Proof.
  intros (Hopen & Hclose & Hf & Htrim)%asciiSpace_cases.
  by apply parseNewMethod_cons.
Qed.

Lemma parse_leading_space_witness :
  asciiSpace "009" = true /\
  parseNewMethod (String "009" "balanceOf(address)(uint256)")
  = parseNewMethod "balanceOf(address)(uint256)".
Proof.
  split; [reflexivity|].
  exact (parse_leading_space "009" "balanceOf(address)(uint256)" eq_refl).
Defined.

(** X5. What follows the output clause is dropped without notice: after
    [pre(ins)(outs] any text that starts with a further [")("] is ignored,
    and in a signature without [")("] so is any text after a second [")"]. *)
Theorem parse_ignores_rest (pre ins outs ret rest : string) :
  plain pre = true -> plain ins = true -> plain outs = true ->
  plain ret = true -> lacks "(" rest = true ->
  parseNewMethod
    (pre +:+ "(" +:+ ins +:+ ")(" +:+ outs +:+ ")(" +:+ rest)
  = parseNewMethod (pre +:+ "(" +:+ ins +:+ ")(" +:+ outs +:+ ")")
  /\
  parseNewMethod (pre +:+ "(" +:+ ins +:+ ")" +:+ ret +:+ ")" +:+ rest)
  = parseNewMethod (pre +:+ "(" +:+ ins +:+ ")" +:+ ret).
Proof.
  intros Hpre Hins Houts Hret Hrest.
  rewrite (parse_multi pre ins outs), (parse_single pre ins ret) by done.
  destruct (plain_lacks _ Hpre) as [Hp1 Hp2].
  destruct (plain_lacks _ Hins) as [Hi1 Hi2].
  destruct (plain_lacks _ Houts) as [Ho1 Ho2].
  destruct (plain_lacks _ Hret) as [Hr1 Hr2].
  assert (Hl : lacks ")" (pre +:+ "(" +:+ ins) = true)
    by (by rewrite !lacks_app, Hp2, Hi2).
  split.
  - rewrite parseNewMethod_cut, (Contains_open pre).
    unfold nameOf. rewrite (before_app "(" "") by done.
    rewrite <- (app_assoc "(" ins), <- (app_assoc pre ("(" +:+ ins)).
    rewrite (Cut_app ")" "(") by done.
    rewrite (Cut_app "(" "") by done.
    rewrite (before_lacks "(" ins "(") by done.
    rewrite (before_app ")" "(") by done.
    rewrite (Replace_absent outs ")") by (by rewrite Contains_byte, Ho2).
    unfold parseParamsPath.
    by rewrite appendInputs_filter, appendOutputs_map.
  - rewrite parseNewMethod_cut, (Contains_open pre).
    unfold nameOf. rewrite (before_app "(" "") by done.
    rewrite Cut_single
      by (done || by rewrite !lacks_app, Hi1, Hr1, Hrest).
    rewrite <- (app_assoc "(" ins), <- (app_assoc pre ("(" +:+ ins)).
    rewrite (before_app ")" "") by done.
    rewrite (Cut_app ")" "") by done.
    rewrite (Cut_app "(" "") by done.
    rewrite (before_lacks "(" ins "(") by done.
    rewrite (before_app ")" "") by done.
    unfold parseParamsPath.
    by rewrite appendInputs_filter.
Qed.

Lemma parse_ignores_rest_witness :
  plain "f" = true /\ plain "a" = true /\ plain "b" = true /\
  lacks "(" "c) view" = true /\
  parseNewMethod "f(a)(b)(c) view" = parseNewMethod "f(a)(b)"
  /\ parseNewMethod "f(a)b)c) view" = parseNewMethod "f(a)b".
Proof.
  do 4 (split; [reflexivity|]).
  exact (parse_ignores_rest "f" "a" "b" "b" "c) view"
           eq_refl eq_refl eq_refl eq_refl eq_refl).
Defined.

End ParserEdges.

Section ParserTrims.

Lemma rev_app_app s t : String.rev_app s t = String.rev s +:+ t.
Proof.
  revert t. induction s as [|c s IH]; intros t; [done|].
  unfold String.rev. simpl. rewrite (IH (String c t)), (IH (String c "")).
  by rewrite app_assoc.
Qed.

Lemma rev_cons c s : String.rev (String c s) = String.rev s +:+ String c "".
Proof. unfold String.rev at 1. simpl. apply rev_app_app. Qed.

Lemma rev_app_distr s t : String.rev (s +:+ t) = String.rev t +:+ String.rev s.
Proof.
  induction s as [|c s IH]; [by rewrite app_empty_l, app_empty_r|].
  by rewrite app_cons, !rev_cons, IH, app_assoc.
Qed.

Lemma rev_involutive s : String.rev (String.rev s) = s.
Proof.
  induction s as [|c s IH]; [done|].
  by rewrite rev_cons, rev_app_distr, IH.
Qed.

Lemma CutSuffix_Some s p r : strings.CutSuffix s p = Some r -> s = r +:+ p.
Proof.
  unfold strings.CutSuffix.
  destruct (strings.CutPrefix _ _) as [r'|] eqn:E; [|done].
  intros [= <-]. apply CutPrefix_Some in E.
  apply (f_equal String.rev) in E.
  by rewrite rev_app_distr, !rev_involutive in E.
Qed.

Lemma firstCut_Some cut s runes r :
  strings.firstCut cut s runes = Some r ->
  exists p, cut s p = Some r.
Proof.
  induction runes as [|p runes IH]; [done|].
  simpl. destruct (cut s p) as [r'|] eqn:E; [|done].
  intros [= <-]. by exists p.
Qed.

(** A white-space rune in front of a text stays in front when the text is
    continued. *)
Lemma cutSpacePrefix_app s u :
  is_Some (strings.cutSpacePrefix s) -> is_Some (strings.cutSpacePrefix (s +:+ u)).
Proof.
  unfold strings.cutSpacePrefix.
  induction strings.spaceRunes as [|p runes IH]; simpl.
  - by intros [? ?].
  - destruct (strings.CutPrefix (s +:+ u) p) eqn:E'; [by eexists|].
    destruct (strings.CutPrefix s p) as [r|] eqn:E; [|done].
    apply CutPrefix_Some in E. subst s.
    by rewrite app_assoc, CutPrefix_app in E'.
Qed.

Lemma trimLoop_suffix n s :
  exists u, s = strings.trimLoop strings.cutSpaceSuffix n s +:+ u.
Proof.
  revert s. induction n as [|n IH]; intros s; simpl.
  - exists "". by rewrite app_empty_r.
  - destruct (strings.cutSpaceSuffix s) as [r|] eqn:E.
    + apply firstCut_Some in E as [p ->%CutSuffix_Some].
      destruct (IH r) as [u Hu]. exists (u +:+ p).
      by rewrite <- app_assoc, <- Hu.
    + exists "". by rewrite app_empty_r.
Qed.

Lemma TrimSpace_trimmed s : trimmed (strings.TrimSpace s).
Proof.
  split; [|apply TrimRightSpace_done].
  unfold strings.TrimSpace.
  destruct (trimLoop_suffix (String.length (strings.TrimLeftSpace s))
              (strings.TrimLeftSpace s)) as [u Hu].
  fold (strings.TrimRightSpace (strings.TrimLeftSpace s)) in Hu.
  destruct (strings.cutSpacePrefix (strings.TrimRightSpace _)) as [r|] eqn:E;
    [|done].
  assert (Hsome : is_Some (strings.cutSpacePrefix (strings.TrimLeftSpace s))).
  { rewrite Hu. apply cutSpacePrefix_app. by eexists. }
  rewrite TrimLeftSpace_done in Hsome. by destruct Hsome.
Qed.

(** X6. No white space is left around what the parser returns: neither
    the name of the method nor the type of any of its inputs and outputs
    starts or ends with a white-space rune. *)
Theorem parse_trimmed (signature : string) (m : Method.t) :
  parseNewMethod signature = Ok m ->
  trimmed (Method.Name m)
  /\ Forall (λ arg, trimmed (Argument.Type_ arg))
       (Method.Inputs m ++ Method.Outputs m).
Proof.
  intros (ins & outs & _ & _ & ->)%parse_arguments.
  cbn [methodOf Method.Name Method.Inputs Method.Outputs].
  split; [apply TrimSpace_trimmed|].
  apply Forall_app.
  split; apply Forall_typed; intros t; apply TrimSpace_trimmed.
Qed.

Lemma parse_trimmed_witness :
  parseNewMethod "  f ( a ,b )( c , d )"
  = Ok (viewFunction "f" ["a"; "b"] ["c"; "d"])
  /\ trimmed (Method.Name (viewFunction "f" ["a"; "b"] ["c"; "d"]))
  /\ Forall (λ arg, trimmed (Argument.Type_ arg))
       (Method.Inputs (viewFunction "f" ["a"; "b"] ["c"; "d"])
        ++ Method.Outputs (viewFunction "f" ["a"; "b"] ["c"; "d"])).
Proof.
  assert (Hp : parseNewMethod "  f ( a ,b )( c , d )"
               = Ok (viewFunction "f" ["a"; "b"] ["c"; "d"]))
    by (vm_compute; reflexivity).
  exact (conj Hp (parse_trimmed _ _ Hp)).
Defined.

End ParserTrims.

(** ** Of the session *)

Section SessionShape.

Context `{External}.

(** The four ways [AddMethod] can end. *)
Lemma AddMethod_outcomes a s :
  (exists existCall,
     rawMethods a !! ToLower s = Some existCall
     /\ AddMethod a s = Panics (duplicate existCall) a)
  \/
  (rawMethods a !! ToLower s = None
   /\ exists p,
        parseNewMethod s = Panic p
        /\ AddMethod a s
           = Panics (Runtime p)
               (setRawMethods a (<[ToLower s := s]> (rawMethods a))))
  \/
  (rawMethods a !! ToLower s = None
   /\ exists m newAbi e,
        parseNewMethod s = Ok m
        /\ repackAbi (methods a ++ [m]) = (newAbi, Some e)
        /\ AddMethod a s
           = Panics (PanicError e)
               (setMethods
                  (setRawMethods a (<[ToLower s := s]> (rawMethods a)))
                  (methods a ++ [m])))
  \/
  (rawMethods a !! ToLower s = None
   /\ exists m newAbi,
        parseNewMethod s = Ok m
        /\ repackAbi (methods a ++ [m]) = (newAbi, None)
        /\ AddMethod a s
           = Returns tt
               (setContractAbi
                  (setMethods
                     (setRawMethods a (<[ToLower s := s]> (rawMethods a)))
                     (methods a ++ [m]))
                  newAbi)).
Proof.
  unfold AddMethod.
  destruct (rawMethods a !! ToLower s) as [existCall|] eqn:Hkey; [left; eauto|].
  right. destruct (parseNewMethod s) as [m|p]; [|left; eauto].
  right. cbn [setMethods setRawMethods methods].
  destruct (repackAbi (methods a ++ [m])) as [newAbi [e|]] eqn:Hrepack;
    [left|right]; (split; [done|]).
  - by exists m, newAbi, e.
  - by exists m, newAbi.
Qed.

(** Every use of the session but [AddMethod] leaves the registry alone. *)
Lemma step_cases a a' :
  step a a' ->
  (rawMethods a' = rawMethods a /\ methods a' = methods a
   /\ contractAbi a' = contractAbi a)
  \/ exists s, a' = stateOf (AddMethod a s).
Proof.
  intros [a0 ?|a0 ?|a0 s|a0 ? ? ? ?|a0 ?|a0].
  - by left.
  - left. unfold AtAddress. by destruct (NewMultiCaller _ _) as [? [?|]].
  - right. by exists s.
  - left. unfold AddCall. by destruct (Pack _ _ _) as [? [?|]].
  - left. by rewrite Call_returns.
  - by left.
Qed.

(** X7. A signature is accepted at most once, and a registration that
    panicked cannot be tried again: after [AddMethod(s)], however it ended,
    a second [AddMethod(s)] panics with the duplicate-method message and
    changes nothing; the message names [s] itself when [s] was new. *)
Theorem AddMethod_again (a : contract) (s : string) :
  AddMethod (stateOf (AddMethod a s)) s
  = Panics
      (duplicate
         (match rawMethods a !! ToLower s with
          | Some existCall => existCall
          | None => s
          end))
      (stateOf (AddMethod a s)).
Proof.
  destruct (AddMethod_outcomes a s)
    as [(x & Hkey & ->)
       |[(Hkey & p & _ & ->)
        |[(Hkey & m & abi & e & _ & _ & ->)
         |(Hkey & m & abi & _ & _ & ->)]]];
    rewrite Hkey; cbn [stateOf]; unfold AddMethod;
    cbn [rawMethods setRawMethods setMethods setContractAbi];
    by rewrite ?Hkey, ?lookup_insert_eq.
Qed.

(** X8. The registry only grows: no use of the session removes or changes
    a raw signature, and the method list after it is the list before,
    followed by at most one method. *)
Theorem step_grows (a a' : contract) :
  step a a' ->
  rawMethods a ⊆ rawMethods a'
  /\ exists added,
       methods a' = methods a ++ added /\ length added <= 1.
Proof.
  assert (Hnone : forall ms : list Method.t,
            exists added, ms = ms ++ added /\ length added <= 1).
  { intros ms. exists []. rewrite app_nil_r. simpl. split; [done|lia]. }
  assert (Hone : forall (ms : list Method.t) m,
            exists added, ms ++ [m] = ms ++ added /\ length added <= 1).
  { intros ms m. exists [m]. simpl. split; [done|lia]. }
  intros [(Hraw & Hms & _)|[s ->]]%step_cases.
  - rewrite Hraw, Hms. by split.
  - destruct (AddMethod_outcomes a s)
      as [(x & Hkey & ->)
         |[(Hkey & p & _ & ->)
          |[(Hkey & m & abi & e & _ & _ & ->)
           |(Hkey & m & abi & _ & _ & ->)]]];
      cbn [stateOf rawMethods methods setRawMethods setMethods setContractAbi];
      (split; [done || by apply insert_subseteq|done]).
Qed.

(** X9. What each operation leaves untouched: [AddMethod], however it
    ends, keeps the pending batch (entries packed with the earlier
    description stay in it), and [AddCall], [Call] and [ClearCall] keep the
    raw signatures, the method list and the compiled description. *)
Theorem operations_frame (a : contract) :
  (forall s, calls (stateOf (AddMethod a s)) = calls a)
  /\ (forall callName contractAddress method args,
        let a' := stateOf (AddCall a callName contractAddress method args) in
        rawMethods a' = rawMethods a /\ methods a' = methods a
        /\ contractAbi a' = contractAbi a)
  /\ (forall blockNumber,
        let a' := stateOf (Call a blockNumber) in
        rawMethods a' = rawMethods a /\ methods a' = methods a
        /\ contractAbi a' = contractAbi a)
  /\ rawMethods (ClearCall a) = rawMethods a
  /\ methods (ClearCall a) = methods a
  /\ contractAbi (ClearCall a) = contractAbi a.
Proof.
  split; [|split; [|split]].
  - intros s.
    by destruct (AddMethod_outcomes a s)
      as [(x & Hkey & ->)
         |[(Hkey & p & _ & ->)
          |[(Hkey & m & abi & e & _ & _ & ->)
           |(Hkey & m & abi & _ & _ & ->)]]].
  - intros callName contractAddress method args. cbn zeta.
    unfold AddCall. by destruct (Pack _ _ _) as [? [?|]].
  - intros blockNumber. cbn zeta. by rewrite Call_returns.
  - done.
Qed.

(** X10. In every session reached from [NewContractBuilder]: each raw
    signature is stored under its lower-cased form; every method of the list
    is the parse of a stored raw signature; the compiled description is the
    zero one or the compilation of an initial part of the method list; and
    there are at most as many methods as raw signatures. *)
Theorem reachable_consistent (a : contract) :
  reachable a ->
  (forall key raw, rawMethods a !! key = Some raw -> key = ToLower raw)
  /\ (forall m, m ∈ methods a ->
        exists raw,
          rawMethods a !! ToLower raw = Some raw /\ parseNewMethod raw = Ok m)
  /\ (contractAbi a = zeroABI
      \/ exists compiled rest,
           methods a = compiled ++ rest
           /\ repackAbi compiled = (contractAbi a, None))
  /\ length (methods a) <= size (rawMethods a).
Proof.
  induction 1 as [|a a' _ (Hkeys & Hparsed & Habi & Hsize) Hstep].
  { split; [|split; [|split]]; cbn.
    - intros key raw. by rewrite lookup_empty.
    - intros m Hm. by apply elem_of_nil in Hm.
    - by left.
    - lia. }
  apply step_cases in Hstep as [(Hraw & Hms & Hc)|[s ->]].
  { by rewrite Hraw, Hms, Hc. }
  assert (Hins : rawMethods a !! ToLower s = None ->
    (forall key raw,
       <[ToLower s := s]> (rawMethods a) !! key = Some raw -> key = ToLower raw)
    /\ (forall m, m ∈ methods a ->
          exists raw,
            <[ToLower s := s]> (rawMethods a) !! ToLower raw = Some raw
            /\ parseNewMethod raw = Ok m)
    /\ size (<[ToLower s := s]> (rawMethods a)) = S (size (rawMethods a))).
  { intros Hkey. split; [|split].
    - intros key raw. rewrite lookup_insert.
      case_decide as Hk; [by intros [= <-]|apply Hkeys].
    - intros m (raw & Hraw & Hp)%Hparsed. exists raw. split; [|done].
      rewrite lookup_insert_ne; [done|]. intros Heq.
      by rewrite <- Heq, Hkey in Hraw.
    - by apply map_size_insert_None. }
  destruct (AddMethod_outcomes a s)
    as [(x & Hkey & ->)
       |[(Hkey & p & _ & ->)
        |[(Hkey & m & abi & e & Hp & _ & ->)
         |(Hkey & m & abi & Hp & Hrepack & ->)]]];
    cbn [stateOf rawMethods methods contractAbi
         setRawMethods setMethods setContractAbi];
    [done|destruct (Hins Hkey) as (Hkeys' & Hparsed' & Hsize')..].
  - split; [done|]. split; [done|]. split; [done|]. lia.
  - split; [done|]. split; [|split].
    + intros m' [Hm|Hm%list_elem_of_singleton]%elem_of_app; [by apply Hparsed'|].
      subst m'. exists s. by rewrite lookup_insert_eq.
    + destruct Habi as [Hzero|(compiled & rest & Hms & Hc)]; [by left|].
      right. exists compiled, (rest ++ [m]).
      by rewrite Hms, <- List.app_assoc.
    + rewrite List.length_app. simpl. lia.
  - split; [done|]. split; [|split].
    + intros m' [Hm|Hm%list_elem_of_singleton]%elem_of_app; [by apply Hparsed'|].
      subst m'. exists s. by rewrite lookup_insert_eq.
    + right. exists (methods a ++ [m]), []. by rewrite app_nil_r.
    + rewrite List.length_app. simpl. lia.
Qed.

End SessionShape.

Section SessionBatch.

Context `{External}.

Lemma String_neq c s : String c s <> s.
Proof.
  intros Heq. apply (f_equal String.length) in Heq. simpl in Heq. lia.
Qed.

(** X11. The duplicate check looks at the text, not at the method: for an
    ASCII signature [s] that has been registered, the signature made of a
    space and [s] is no duplicate when its own text is new, it parses to the
    same method, and [AddMethod] appends that method a second time. *)
Theorem AddMethod_space_twice (a a1 : contract) (s : string) :
  strings.isASCII s = true ->
  rawMethods a !! ToLower (String " " s) = None ->
  AddMethod a s = Returns tt a1 ->
  exists m,
    parseNewMethod s = Ok m
    /\ methods a1 = methods a ++ [m]
    /\ methods (stateOf (AddMethod a1 (String " " s))) = methods a ++ [m; m].
Proof.
  intros Hascii Hfresh Hadd.
  destruct (AddMethod_outcomes a s)
    as [(x & _ & Ho)
       |[(_ & p & _ & Ho)
        |[(_ & m & abi & e & _ & _ & Ho)
         |(Hkey & m & abi & Hp & _ & Ho)]]];
    rewrite Ho in Hadd; try discriminate.
  injection Hadd as <-. exists m. split; [done|]. split; [done|].
  assert (Hp' : parseNewMethod (String " " s) = Ok m).
  { rewrite parseNewMethod_cons; [done..|]. intros t. apply TrimSpace_space. }
  assert (Hne : ToLower s <> ToLower (String " " s)).
  { unfold ToLower. cbn [strings.isASCII]. rewrite Hascii. simpl.
    intros Heq. by apply (String_neq " " (strings.lowerASCII s)). }
  match goal with |- methods (stateOf (AddMethod ?b _)) = _ => set (a1 := b) end.
  assert (Hfresh1 : rawMethods a1 !! ToLower (String " " s) = None).
  { subst a1. cbn [rawMethods setRawMethods setMethods setContractAbi].
    by rewrite lookup_insert_ne. }
  assert (Hms : methods a1 = methods a ++ [m]) by done.
  destruct (AddMethod_outcomes a1 (String " " s))
    as [(x & Hk & _)
       |[(_ & p & Hq & _)
        |[(_ & m' & abi' & e & Hq & _ & ->)
         |(_ & m' & abi' & Hq & _ & ->)]]].
  - by rewrite Hfresh1 in Hk.
  - by rewrite Hp' in Hq.
  - rewrite Hp' in Hq. injection Hq as <-.
    cbn [stateOf methods setMethods]. by rewrite Hms, <- List.app_assoc.
  - rewrite Hp' in Hq. injection Hq as <-.
    cbn [stateOf methods setMethods setContractAbi].
    by rewrite Hms, <- List.app_assoc.
Qed.

(** X12. [Call] never panics and hands on what the aggregator answered:
    it returns the block number and the error of [Execute] unchanged, beside
    a map whose keys are exactly the labels of the batch, whether the
    entries unpack or not; the batch is empty afterwards. *)
Theorem Call_propagates (a : contract) (blockNumber : option Z) :
  exists res,
    Call a blockNumber
    = Returns ((executed a blockNumber).1.1, res, (executed a blockNumber).2)
        (ClearCall a)
    /\ dom res = list_to_set (core.Name <$> calls a)
    /\ calls (ClearCall a) = [].
Proof.
  eexists. split; [apply Call_returns|]. split; [|done].
  by rewrite unpackInto_dom, dom_empty_L, (left_id_L ∅ (∪)).
Qed.

(** X13. When the aggregator returns no result at all (as it does beside
    an error), every label of the batch is still a key of the map: it holds
    what [Unpack] gives on empty data for the method of the last entry with
    that label. *)
Theorem Call_without_results (a : contract) (blockNumber : option Z)
    (label : string) :
  (executed a blockNumber).1.2 = ∅ ->
  (match Call a blockNumber with
   | Returns r _ => r.1.2
   | Panics _ _ => ∅
   end) !! label
  = (λ c, (Unpack (contractAbi a) (core.Method c) []).1)
      <$> last (filter (λ c, core.Name c = label) (calls a)).
Proof.
  intros Hnone. rewrite Call_returns. cbn [fst snd].
  rewrite unpackInto_lookup, Hnone.
  unfold returnDataOf. rewrite lookup_empty.
  by destruct (last _).
Qed.

(** X14. A second [Call] right after a [Call] sends the aggregator an
    empty batch and returns an empty map. *)
Theorem Call_twice (a : contract) (blockNumber blockNumber' : option Z) :
  Call (stateOf (Call a blockNumber)) blockNumber'
  = Returns
      ((Execute (multiCaller a) [] blockNumber').1.1,
       ∅,
       (Execute (multiCaller a) [] blockNumber').2)
      (ClearCall a).
Proof. by rewrite !Call_returns. Qed.

Lemma setCalls_same a : setCalls a (calls a) = a.
Proof. by destruct a. Qed.

(** X15. Calls added in a row pile up in order behind the pending ones:
    when every request of a list packs, the batch afterwards is the batch
    before followed by one entry per request; and when the request after
    them does not pack, the chain panics with that error, the batch holding
    the entries added so far. *)
Theorem AddCalls_batch (a : contract)
    (good : list (string * string * string * list value)) :
  Forall (λ r, (Pack (contractAbi a) r.1.2 r.2).2 = None) good ->
  AddCalls a good
  = Returns tt (setCalls a (calls a ++ (entryOf a <$> good)))
  /\
  forall bad rest e,
    (Pack (contractAbi a) bad.1.2 bad.2).2 = Some e ->
    AddCalls a (good ++ bad :: rest)
    = Panics (PanicError e) (setCalls a (calls a ++ (entryOf a <$> good))).
Proof.
  intros Hgood. revert a Hgood.
  induction good as [|[[[callName contractAddress] method] args] good IH];
    intros a Hgood.
  - rewrite fmap_nil, app_nil_r, setCalls_same. split; [done|].
    intros [[[callName contractAddress] method] args] rest e He.
    cbn [app AddCalls]. unfold AddCall. cbn [fst snd] in He.
    by destruct (Pack (contractAbi a) method args) as [callData err];
      simpl in He; subst err.
  - apply Forall_cons in Hgood as [Hr Hgood]. cbn [fst snd] in Hr.
    assert (Hadd : AddCall a callName contractAddress method args
              = Returns tt
                  (setCalls a
                     (calls a ++ [entry a callName contractAddress method args]))).
    { unfold AddCall, entry.
      by destruct (Pack (contractAbi a) method args) as [callData err];
        simpl in Hr; subst err. }
    destruct (IH (setCalls a
                    (calls a ++ [entry a callName contractAddress method args]))
                Hgood) as [IH1 IH2].
    split.
    + cbn [AddCalls]. rewrite Hadd, IH1.
      cbn [calls setCalls contractAbi]. by rewrite <- List.app_assoc.
    + intros bad rest e He. cbn [app AddCalls]. rewrite Hadd, (IH2 bad rest e He).
      cbn [calls setCalls contractAbi]. by rewrite <- List.app_assoc.
Qed.

(** X16. A method registered while calls are pending changes how they are
    read, not what is sent: after [AddMethod], however it ended, [Call]
    gives the aggregator the same batch as before and unpacks the answers
    with the description stored at that moment. *)
Theorem AddMethod_then_Call (a : contract) (s : string)
    (blockNumber : option Z) :
  Call (stateOf (AddMethod a s)) blockNumber
  = Returns
      ((executed a blockNumber).1.1,
       fold_left
         (unpackInto (contractAbi (stateOf (AddMethod a s)))
            (executed a blockNumber).1.2)
         (calls a) ∅,
       (executed a blockNumber).2)
      (ClearCall (stateOf (AddMethod a s))).
Proof.
  rewrite Call_returns. unfold executed.
  by destruct (AddMethod_outcomes a s)
    as [(x & Hkey & ->)
       |[(Hkey & p & _ & ->)
        |[(Hkey & m & abi & e & _ & _ & ->)
         |(Hkey & m & abi & _ & _ & ->)]]].
Qed.

(** X18. [AddMethod] returns exactly when the lower-cased signature is
    new, the signature parses and the whole method list, the new method
    last, compiles; the session then holds the new raw signature, the longer
    list and that compilation, and nothing else has changed. *)
Theorem AddMethod_returns_iff (a a' : contract) (s : string) :
  AddMethod a s = Returns tt a'
  <->
  rawMethods a !! ToLower s = None
  /\ exists m,
       parseNewMethod s = Ok m
       /\ repackAbi (methods a ++ [m]) = (contractAbi a', None)
       /\ rawMethods a' = <[ToLower s := s]> (rawMethods a)
       /\ methods a' = methods a ++ [m]
       /\ calls a' = calls a
       /\ ethClient a' = ethClient a
       /\ multiCaller a' = multiCaller a.
Proof.
  split.
  - intros Hadd.
    destruct (AddMethod_outcomes a s)
      as [(x & _ & Ho)
         |[(_ & p & _ & Ho)
          |[(_ & m & abi & e & _ & _ & Ho)
           |(Hkey & m & abi & Hp & Hrepack & Ho)]]];
      rewrite Ho in Hadd; try discriminate.
    injection Hadd as <-. split; [done|]. by exists m.
  - intros (Hkey & m & Hp & Hrepack & Hraw & Hms & Hcalls & Hclient & Hcaller).
    unfold AddMethod. rewrite Hkey, Hp.
    cbn [setMethods setRawMethods methods]. rewrite Hrepack.
    destruct a'. simpl in *. by subst.
Qed.

End SessionBatch.

Lemma step_grows_witness :
  step demoSession (stateOf (AddMethod demoSession "balanceOf(address)(uint256)"))
  /\ rawMethods demoSession
     ⊆ rawMethods (stateOf (AddMethod demoSession "balanceOf(address)(uint256)"))
  /\ exists added,
       methods (stateOf (AddMethod demoSession "balanceOf(address)(uint256)"))
       = methods demoSession ++ added
       /\ length added <= 1.
Proof.
  assert (Hstep : step demoSession
            (stateOf (AddMethod demoSession "balanceOf(address)(uint256)")))
    by apply step_AddMethod.
  exact (conj Hstep (step_grows _ _ Hstep)).
Defined.

Lemma reachable_consistent_witness :
  reachable demoBatch
  /\ (forall key raw, rawMethods demoBatch !! key = Some raw -> key = @ToLower demo raw)
  /\ (forall m, m ∈ methods demoBatch ->
        exists raw,
          rawMethods demoBatch !! @ToLower demo raw = Some raw
          /\ parseNewMethod raw = Ok m)
  /\ (contractAbi demoBatch = @zeroABI demo
      \/ exists compiled rest,
           methods demoBatch = compiled ++ rest
           /\ @repackAbi demo compiled = (contractAbi demoBatch, None))
  /\ length (methods demoBatch) <= size (rawMethods demoBatch).
Proof.
  assert (Hreach : reachable demoBatch).
  { apply (reachable_step demoSession); [|apply step_AddCall].
    apply (reachable_step NewContractBuilder); [|apply step_AddMethod].
    apply reachable_new. }
  exact (conj Hreach (reachable_consistent demoBatch Hreach)).
Defined.

Lemma AddMethod_space_twice_witness :
  strings.isASCII "function totalSupply()(uint256)" = true
  /\ rawMethods (@NewContractBuilder demo)
       !! @ToLower demo (String " " "function totalSupply()(uint256)") = None
  /\ AddMethod NewContractBuilder "function totalSupply()(uint256)"
     = Returns tt demoSession
  /\ exists m,
       parseNewMethod "function totalSupply()(uint256)" = Ok m
       /\ methods demoSession = methods (@NewContractBuilder demo) ++ [m]
       /\ methods (stateOf (AddMethod demoSession
                              (String " " "function totalSupply()(uint256)")))
          = methods (@NewContractBuilder demo) ++ [m; m].
Proof.
  assert (Hadd : AddMethod (@NewContractBuilder demo)
                   "function totalSupply()(uint256)" = Returns tt demoSession)
    by (vm_compute; reflexivity).
  split; [reflexivity|]. split; [reflexivity|]. split; [exact Hadd|].
  exact (AddMethod_space_twice NewContractBuilder demoSession
           "function totalSupply()(uint256)" eq_refl eq_refl Hadd).
Defined.

Lemma Call_without_results_witness :
  (executed demoBatch None).1.2 = ∅
  /\ (match Call demoBatch None with
      | Returns r _ => r.1.2
      | Panics _ _ => ∅
      end) !! "ts"
     = (λ c, (Unpack (contractAbi demoBatch) (core.Method c) []).1)
         <$> last (filter (λ c, core.Name c = "ts") (calls demoBatch)).
Proof.
  assert (Hnone : (executed demoBatch None).1.2 = ∅) by reflexivity.
  exact (conj Hnone (Call_without_results demoBatch None "ts" Hnone)).
Defined.

Lemma AddCalls_batch_witness :
  Forall (λ r, (Pack (contractAbi demoSession) r.1.2 r.2).2 = None)
    [("a", "0xAAA", "totalSupply", []); ("b", "0xBBB", "totalSupply", [])]
  /\ AddCalls demoSession
       [("a", "0xAAA", "totalSupply", []); ("b", "0xBBB", "totalSupply", [])]
     = Returns tt
         (setCalls demoSession
            (calls demoSession
             ++ (entryOf demoSession
                   <$> [("a", "0xAAA", "totalSupply", []);
                        ("b", "0xBBB", "totalSupply", [])])))
  /\ AddCalls demoSession
       ([("a", "0xAAA", "totalSupply", []); ("b", "0xBBB", "totalSupply", [])]
        ++ ("c", "0xCCC", "totalSupply", [[]]) :: [])
     = Panics (PanicError (H := demo) "invalid arguments")
         (setCalls demoSession
            (calls demoSession
             ++ (entryOf demoSession
                   <$> [("a", "0xAAA", "totalSupply", []);
                        ("b", "0xBBB", "totalSupply", [])]))).
Proof.
  assert (Hgood :
    Forall (λ r, (Pack (contractAbi demoSession) r.1.2 r.2).2 = None)
      [("a", "0xAAA", "totalSupply", []); ("b", "0xBBB", "totalSupply", [])])
    by (repeat constructor).
  destruct (AddCalls_batch demoSession _ Hgood) as [Hall Hstop].
  split; [exact Hgood|]. split; [exact Hall|].
  exact (Hstop ("c", "0xCCC", "totalSupply", [[]]) [] "invalid arguments" eq_refl).
Defined.
